(** * Chunked question answering over a remote scorer

    A shallow embedding of [pdf_qa_script.py] (class
    [PDFQuestionAnswering]: [chunk_text], [ask_question],
    [ask_question_with_chunking]) and of the [/process] handler of
    [app.py], together with the properties of the greedy chunker and of
    the best-answer search.

    Conventions of the embedding.
    - A Python [str] is a [string]; its characters are the code points
      below 256, and [isspace] is [str.isspace] on that range.
    - A Python [int] is a [Z]; a [float] is the rational [Q] it denotes,
      compared exactly as Python compares [int] and finite [float]
      values. The values [nan] and [inf] are not represented.
    - A Python [dict] with string keys is a [gmap string pyval].
    - [requests.post] is the only effect that is kept: the k-th call made
      during a run receives the k-th outcome of a script [responses], and
      every call is appended to a log. What [print] writes is left out.
    - An uncaught exception is a [Raise] outcome. *)

From Stdlib Require Import ZArith QArith Lqa Strings.String Strings.Ascii List Lia.
From stdpp Require Import base gmap strings list fin_maps pretty.

Local Open Scope string_scope.
Local Open Scope Z_scope.
Local Open Scope list_scope.

(** ** Python strings *)

Module PyStr.

(** [len(s)] as a Python integer. *)
Definition len (s : string) : Z := Z.of_nat (String.length s).

(** [str.isspace] on one character: tab to carriage return, the four
    separators 28..31, the space, NEL (133) and the no-break space (160). *)
Definition isspace (c : ascii) : bool :=
  let n := N_of_ascii c in
  ((9 <=? n)%N && (n <=? 13)%N) || ((28 <=? n)%N && (n <=? 32)%N)
  || (n =? 133)%N || (n =? 160)%N.

(** The word being scanned is emitted when it is not empty. *)
Definition emit (word : string) : list string :=
  match word with
  | EmptyString => []
  | _ => [word]
  end.

(** [s.split()]: the scanner of [str.split] without separator; [word]
    holds the characters read since the last whitespace. *)
Fixpoint split_scan (word s : string) : list string :=
  match s with
  | EmptyString => emit word
  | String c s' =>
      if isspace c then emit word ++ split_scan "" s'
      else split_scan (word +:+ String c "") s'
  end.

Definition split (s : string) : list string := split_scan "" s.

(** [s.split(" ")]: every single space separates, empty fields are kept. *)
Fixpoint split_on_space_scan (field s : string) : list string :=
  match s with
  | EmptyString => [field]
  | String c s' =>
      if Ascii.eqb c " "%char then field :: split_on_space_scan "" s'
      else split_on_space_scan (field +:+ String c "") s'
  end.

Definition split_on_space (s : string) : list string :=
  split_on_space_scan "" s.

(** [" ".join(ws)]. *)
Definition join (ws : list string) : string := String.concat " " ws.

(** [s * n]. *)
Fixpoint mul (s : string) (n : nat) : string :=
  match n with
  | O => ""
  | S n' => s +:+ mul s n'
  end.

(** [s.strip()]: leading, then trailing whitespace removed. *)
Fixpoint lstrip (s : string) : string :=
  match s with
  | EmptyString => ""
  | String c s' => if isspace c then lstrip s' else s
  end.

Fixpoint rstrip (s : string) : string :=
  match s with
  | EmptyString => ""
  | String c s' =>
      match rstrip s' with
      | EmptyString => if isspace c then "" else String c ""
      | r => String c r
      end
  end.

Definition strip (s : string) : string := rstrip (lstrip s).

(** No character of [s] is whitespace. *)
Fixpoint nospace (s : string) : bool :=
  match s with
  | EmptyString => true
  | String c s' => negb (isspace c) && nospace s'
  end.

(** No character of [s] is the space character. *)
Fixpoint no_blank (s : string) : bool :=
  match s with
  | EmptyString => true
  | String c s' => negb (Ascii.eqb c " "%char) && no_blank s'
  end.

(** Every character of [s] is whitespace. *)
Fixpoint all_space (s : string) : bool :=
  match s with
  | EmptyString => true
  | String c s' => isspace c && all_space s'
  end.

(** What [split] produces: non-empty, whitespace-free strings. *)
Definition is_word (w : string) : Prop := w <> "" /\ nospace w = true.

(** Truthiness of a string: [not s] holds of the empty string only. *)
Definition truthy (s : string) : bool :=
  match s with
  | EmptyString => false
  | _ => true
  end.

End PyStr.

(** ** The chunker: [PDFQuestionAnswering.chunk_text] *)

Module Chunker.

(** The three locals of the loop. *)
Record state := mk_state {
  chunks : list string;
  current_chunk : list string;
  current_length : Z
}.

Definition init : state := mk_state [] [] 0.

(** [if current_chunk: chunks.append(" ".join(current_chunk))]. *)
Definition flush (chunks : list string) (current_chunk : list string)
  : list string :=
  match current_chunk with
  | [] => chunks
  | _ => chunks ++ [PyStr.join current_chunk]
  end.

(** One iteration of [for word in words]. *)
Definition step (max_length : Z) (st : state) (word : string) : state :=
  if current_length st + PyStr.len word + 1 <=? max_length then
    mk_state (chunks st)
             (current_chunk st ++ [word])
             (current_length st + PyStr.len word + 1)
  else
    mk_state (flush (chunks st) (current_chunk st))
             [word]
             (PyStr.len word).

Definition chunk_words (words : list string) (max_length : Z) : list string :=
  let st := foldl (step max_length) init words in
  flush (chunks st) (current_chunk st).

Definition chunk_text (text : string) (max_length : Z) : list string :=
  chunk_words (PyStr.split text) max_length.

(** The default of the [max_length] parameter. *)
Definition default_max_length : Z := 1000.

(** *** The same loop with the joins postponed

    [gstep] is [step] on groups of words; [step] is recovered by joining
    each finished group ([step_groups]). *)
Record gstate := mk_gstate {
  groups : list (list string);
  gcurrent : list string;
  glength : Z
}.

Definition ginit : gstate := mk_gstate [] [] 0.

Definition gflush (gs : list (list string)) (cur : list string)
  : list (list string) :=
  match cur with
  | [] => gs
  | _ => gs ++ [cur]
  end.

Definition gstep (max_length : Z) (st : gstate) (word : string) : gstate :=
  if glength st + PyStr.len word + 1 <=? max_length then
    mk_gstate (groups st) (gcurrent st ++ [word])
              (glength st + PyStr.len word + 1)
  else
    mk_gstate (gflush (groups st) (gcurrent st)) [word] (PyStr.len word).

Definition word_groups (words : list string) (max_length : Z)
  : list (list string) :=
  let st := foldl (gstep max_length) ginit words in
  gflush (groups st) (gcurrent st).

Definition forget (st : gstate) : state :=
  mk_state (map PyStr.join (groups st)) (gcurrent st) (glength st).

(** *** Invariants of the loop

    A finished group is [bounded]: its join fits, or it is one oversized
    word. [bound_inv] adds that [current_length] never underestimates the
    join of the current chunk and exceeds [max_length] only for a single
    word. *)
Section Invariants.

Variable max_length : Z.

Definition bounded (g : list string) : Prop :=
  PyStr.len (PyStr.join g) <= max_length
  \/ exists w, g = [w] /\ max_length < PyStr.len w.

Definition bound_inv (st : gstate) : Prop :=
  Forall bounded (groups st)
  /\ 0 <= glength st
  /\ (gcurrent st <> [] ->
      PyStr.len (PyStr.join (gcurrent st)) <= glength st
      /\ (glength st <= max_length \/ exists w, gcurrent st = [w])).

(** The first chunk is started from an empty [current_chunk], so its
    first word is charged a separator: [first_ok] is what the first group
    satisfies, [first_inv] what holds until it is finished. *)
Definition first_ok (g : list string) : Prop :=
  PyStr.len (PyStr.join g) <= max_length - 1
  \/ exists w, g = [w] /\ max_length <= PyStr.len w.

Definition first_inv (st : gstate) : Prop :=
  match groups st with
  | g :: _ => first_ok g
  | [] =>
      (gcurrent st = [] /\ glength st = 0)
      \/ (gcurrent st <> []
          /\ PyStr.len (PyStr.join (gcurrent st)) + 1 = glength st
          /\ glength st <= max_length)
      \/ (exists w, gcurrent st = [w] /\ glength st = PyStr.len w
                    /\ max_length <= PyStr.len w)
  end.

(** A group is closed only when the next word does not fit: the join of
    [g], a space and the first word of the next group [g'] are more than
    [max_length] characters; for the first group, whose counter is one
    ahead, they may be exactly [max_length]. *)
Definition tight (first : bool) (g g' : list string) : Prop :=
  exists w r,
    g' = w :: r
    /\ max_length
       < PyStr.len (PyStr.join g) + 1 + PyStr.len w
         + (if first then 1 else 0).

Fixpoint chain (first : bool) (gs : list (list string)) : Prop :=
  match gs with
  | g :: ((g' :: _) as rest) => tight first g g' /\ chain false rest
  | _ => True
  end.

(** Before the first word nothing is open; afterwards the finished
    groups and the open one form a chain, and the counter is the length
    of the open join, one more at most while no group is finished. *)
Definition chain_inv (st : gstate) : Prop :=
  (gcurrent st = [] /\ groups st = [] /\ glength st = 0)
  \/ (gcurrent st <> []
      /\ chain true (groups st ++ [gcurrent st])
      /\ glength st
         <= PyStr.len (PyStr.join (gcurrent st))
            + (match groups st with [] => 1 | _ => 0 end)).

End Invariants.

End Chunker.

(** ** Python values, exceptions and comparison *)

Module Py.

(** The values a decoded JSON document and a result dict can hold. A
    [float] is held as the rational it denotes. *)
#[warnings="-register-all"]
Inductive pyval :=
| PNone
| PBool (b : bool)
| PInt (z : Z)
| PFloat (q : Q)
| PStr (s : string)
| PList (l : list pyval)
| PDict (d : gmap string pyval).

Inductive exn :=
| TypeError
| KeyError (key : string)
| UnicodeDecodeError.

Inductive outcome (A : Type) :=
| Ok (a : A)
| Raise (e : exn).
Arguments Ok {A} a.
Arguments Raise {A} e.

(** [type(v).__name__]. *)
Definition type_name (v : pyval) : string :=
  match v with
  | PNone => "NoneType"
  | PBool _ => "bool"
  | PInt _ => "int"
  | PFloat _ => "float"
  | PStr _ => "str"
  | PList _ => "list"
  | PDict _ => "dict"
  end.

(** The number a value denotes: [int], [float], and [bool] as 0 or 1. *)
Definition num (v : pyval) : option Q :=
  match v with
  | PBool b => Some (if b then 1%Q else 0%Q)
  | PInt z => Some (inject_Z z)
  | PFloat q => Some q
  | _ => None
  end.

(** [a > b]. Two numbers are compared exactly, two strings
    lexicographically; a number against anything else, [None] or a
    [dict] against anything, raise [TypeError]. The order between two
    lists is left out and reported as [TypeError] as well: the right
    operand of the only comparison of the program is a number. *)
Definition gt (a b : pyval) : outcome bool :=
  match num a, num b with
  | Some x, Some y => Ok (negb (Qle_bool x y))
  | _, _ =>
      match a, b with
      | PStr s, PStr t => Ok (String.ltb t s)
      | _, _ => Raise TypeError
      end
  end.

(** [d.get(key, default)]. *)
Definition get (d : gmap string pyval) (key : string) (default : pyval)
  : pyval :=
  match d !! key with
  | Some v => v
  | None => default
  end.

(** [d[key]]. *)
Definition subscript (d : gmap string pyval) (key : string)
  : outcome pyval :=
  match d !! key with
  | Some v => Ok v
  | None => Raise (KeyError key)
  end.

(** [key in d]. *)
Definition contains (d : gmap string pyval) (key : string) : bool :=
  match d !! key with
  | Some _ => true
  | None => false
  end.

(** [str(x)] of an optional string, as an f-string prints it. *)
Definition str_of_optional (o : option string) : string :=
  match o with
  | Some s => s
  | None => "None"
  end.

(** Truthiness of an optional string: [None] and [""] are false. *)
Definition truthy_optional (o : option string) : bool :=
  match o with
  | Some s => PyStr.truthy s
  | None => false
  end.

End Py.

Export Py.

Abbreviation dict := (gmap string pyval).

(** ** The remote scorer: [requests.post] *)

Module Http.

(** What a call passes to [requests.post]. *)
Record request := mk_request {
  url : string;
  req_headers : gmap string string;
  req_json : pyval;
  req_timeout : option Z
}.

(** [response.json()] either decodes the body or raises; [str(e)] of the
    exception is kept. *)
Inductive json_result :=
| JsonValue (v : pyval)
| JsonError (message : string).

Record response := mk_response {
  status_code : Z;
  text : string;
  json : json_result
}.

(** A call returns a response or raises; [str(e)] of the exception is
    kept. *)
Inductive post_outcome :=
| Responded (r : response)
| PostRaised (message : string).

(** Computations that call the scorer: the log of the calls made so far
    is threaded, an exception stops the computation and keeps the log. *)
Definition M (A : Type) : Type :=
  list request -> outcome A * list request.

Definition ret {A} (a : A) : M A := fun calls => (Ok a, calls).

Definition raise {A} (e : exn) : M A := fun calls => (Raise e, calls).

Definition lift {A} (o : outcome A) : M A := fun calls => (o, calls).

Definition bind {A B} (m : M A) (k : A -> M B) : M B :=
  fun calls =>
    match m calls with
    | (Ok a, calls') => k a calls'
    | (Raise e, calls') => (Raise e, calls')
    end.

(** The k-th call of a run receives [responses k]. *)
Definition requests_post (responses : nat -> post_outcome) (r : request)
  : M post_outcome :=
  fun calls => (Ok (responses (List.length calls)), calls ++ [r]).

End Http.

Export Http.

Notation "x <- m ;; k" := (bind m (fun x => k))
  (at level 100, m at next level, right associativity).

(** [{"error": message}]. *)
Definition error_dict (message : string) : dict :=
  {[ "error" := PStr message ]}.

(** ** The class [PDFQuestionAnswering] *)

Module QA.

(** The attributes of the object that the methods below read. *)
Record PDFQuestionAnswering := mk_qa {
  hf_api_token : string;
  pdf_text : string;
  model_name : string;
  api_url : string;
  headers : gmap string string
}.

Definition inference_url (model_name : string) : string :=
  "https://api-inference.huggingface.co/models/" +:+ model_name.

(** [__init__]. *)
Definition new (hf_api_token model_name : string) : PDFQuestionAnswering :=
  mk_qa hf_api_token "" model_name (inference_url model_name)
        {[ "Authorization" := "Bearer " +:+ hf_api_token ]}.

Definition newline : string := String (ascii_of_nat 10) "".

(** [extract_text_from_pdf]: [pages] is what the reader yields, the text
    of every page or [None] when opening or reading raises. The method
    returns the text and stores it only when nothing raised. *)
Definition extract_text_from_pdf (self : PDFQuestionAnswering)
    (pages : option (list string)) : string * PDFQuestionAnswering :=
  match pages with
  | Some ps =>
      let text := foldl (fun text page => text +:+ page +:+ newline) "" ps in
      let stripped := PyStr.strip text in
      (stripped,
       mk_qa (hf_api_token self) stripped (model_name self) (api_url self)
             (headers self))
  | None => ("", self)
  end.

(** The body of the [try] block of [ask_question] after the call, with
    its [except Exception] handler. *)
Definition answer_of_outcome (model_name : string) (o : post_outcome)
  : dict :=
  match o with
  | PostRaised message => error_dict ("Error making API request: " +:+ message)
  | Responded r =>
      if status_code r =? 200 then
        match json r with
        | JsonError message =>
            error_dict ("Error making API request: " +:+ message)
        | JsonValue (PDict result) =>
            {[ "answer" := get result "answer" (PStr "No answer found");
               "score" := get result "score" (PInt 0);
               "start" := get result "start" (PInt 0);
               "end" := get result "end" (PInt 0) ]}
        | JsonValue v =>
            error_dict ("Error making API request: '" +:+ type_name v
                        +:+ "' object has no attribute 'get'")
        end
      else if status_code r =? 404 then
        error_dict ("Model '" +:+ model_name
                    +:+ "' not found. Try changing to a different model.")
      else if status_code r =? 503 then
        error_dict "Model is loading. Please wait a moment and try again."
      else
        error_dict ("API request failed: " +:+ pretty (status_code r)
                    +:+ " - " +:+ text r)
  end.

Definition no_pdf_text : dict :=
  error_dict "No PDF text available. Please load a PDF first.".

(** The JSON payload of a question over a context. *)
Definition qa_payload (question context : string) : pyval :=
  PDict {[ "inputs" := PDict {[ "question" := PStr question;
                                "context" := PStr context ]} ]}.

Definition qa_request (self : PDFQuestionAnswering)
    (question context : string) : request :=
  mk_request (api_url self) (headers self) (qa_payload question context) None.

(** The best answer before any chunk is processed. *)
Definition sentinel : dict :=
  {[ "answer" := PStr "No answer found"; "score" := PInt 0 ]}.

(** The test of the loop:
    ["error" not in result and result.get("score", 0) > best_answer["score"]];
    [and] does not evaluate its right operand after a false left one. *)
Definition improves (result best_answer : dict) : outcome bool :=
  if negb (contains result "error") then
    match subscript best_answer "score" with
    | Ok best_score => gt (get result "score" (PInt 0)) best_score
    | Raise e => Raise e
    end
  else Ok false.

Section Methods.

Variable responses : nat -> post_outcome.

(** [ask_question]. *)
Definition ask_question (self : PDFQuestionAnswering) (question : string)
    (context : option string) : M dict :=
  let context :=
    if Py.truthy_optional context then Py.str_of_optional context
    else pdf_text self in
  if negb (PyStr.truthy context) then ret no_pdf_text
  else
    o <- requests_post responses (qa_request self question context) ;;
    ret (answer_of_outcome (model_name self) o).

(** The loop [for i, chunk in enumerate(chunks)], from index [i] on. The
    result of a call is a fresh dict, so [best_answer["chunk_index"] = i]
    writes to no other dict. *)
Fixpoint search (self : PDFQuestionAnswering) (question : string)
    (i : nat) (chunks : list string) (best_answer : dict) : M dict :=
  match chunks with
  | [] => ret best_answer
  | chunk :: rest =>
      result <- ask_question self question (Some chunk) ;;
      better <- lift (improves result best_answer) ;;
      if (better : bool) then
        search self question (S i) rest
               (<[ "chunk_index" := PInt (Z.of_nat i) ]> result)
      else
        search self question (S i) rest best_answer
  end.

(** [ask_question_with_chunking]. *)
Definition ask_question_with_chunking (self : PDFQuestionAnswering)
    (question : string) : M dict :=
  if negb (PyStr.truthy (pdf_text self)) then ret no_pdf_text
  else
    let chunks :=
      Chunker.chunk_text (pdf_text self) Chunker.default_max_length in
    search self question 0 chunks sentinel.

End Methods.

(** *** Vocabulary of the statements *)

(** The call answered without an ["error"] key. *)
Definition succeeded (result : dict) : Prop := result !! "error" = None.

(** The number compared by the loop, [result.get("score", 0)], when it
    is one. *)
Definition score_of (result : dict) : option Q :=
  num (get result "score" (PInt 0)).

(** What [ask_question_with_chunking] iterates over. *)
Definition chunks_of (self : PDFQuestionAnswering) : list string :=
  Chunker.chunk_text (pdf_text self) Chunker.default_max_length.

(** The dict that [ask_question] returns for the chunk of index [i] when
    [ask_question_with_chunking] is entered with the log [calls]: every
    chunk costs one call, so it is built from the reply to the call
    number [length calls + i]. *)
Definition chunk_result (responses : nat -> post_outcome)
    (self : PDFQuestionAnswering) (calls : list request) (i : nat) : dict :=
  answer_of_outcome (model_name self) (responses (List.length calls + i)%nat).

Definition chunk_results (responses : nat -> post_outcome)
    (self : PDFQuestionAnswering) (calls : list request) (n : nat)
  : list dict :=
  map (chunk_result responses self calls) (seq 0 n).

(** The loop of [search] over the results of the calls, the calls
    themselves left out. *)
Fixpoint select (i : nat) (results : list dict) (best_answer : dict)
  : outcome dict :=
  match results with
  | [] => Ok best_answer
  | result :: rest =>
      match improves result best_answer with
      | Ok true =>
          select (S i) rest (<[ "chunk_index" := PInt (Z.of_nat i) ]> result)
      | Ok false => select (S i) rest best_answer
      | Raise e => Raise e
      end
  end.

(** What [answer_of_outcome] builds: a dict with an ["error"] key only,
    or one with a ["score"] and neither ["error"] nor ["chunk_index"]. *)
Definition well_shaped (result : dict) : Prop :=
  (exists message, result = error_dict message)
  \/ (result !! "error" = None
      /\ result !! "chunk_index" = None
      /\ is_Some (result !! "score")).

(** The best answer carries a number under ["score"]. *)
Definition best_score (best_answer : dict) (b : Q) : Prop :=
  exists v, best_answer !! "score" = Some v /\ num v = Some b.

(** A result that the loop passes over: an error, or a score that does
    not exceed the best one. *)
Definition passed_over (result : dict) (b : Q) : Prop :=
  ~ succeeded result \/ exists q, score_of result = Some q /\ (q <= b)%Q.

(** What [select] computes from a best answer of score [b]: it raises
    only on a successful result whose score is not a number; otherwise
    the score [b'] of the answer bounds [b] and every successful score,
    and the answer is the initial one or the first result that reaches
    [b'], marked with its index. *)
Definition select_post (i : nat) (results : list dict) (best_answer : dict)
    (b : Q) (o : outcome dict) : Prop :=
  match o with
  | Ok d =>
      exists b',
        best_score d b'
        /\ (b <= b')%Q
        /\ (forall k r, results !! k = Some r -> succeeded r ->
             exists q, score_of r = Some q /\ (q <= b')%Q)
        /\ ((d = best_answer /\ b' = b)
            \/ exists k r,
                results !! k = Some r
                /\ succeeded r
                /\ score_of r = Some b'
                /\ (b < b')%Q
                /\ d = <[ "chunk_index" := PInt (Z.of_nat (i + k)) ]> r
                /\ forall j rj qj, (j < k)%nat -> results !! j = Some rj ->
                     succeeded rj -> score_of rj = Some qj -> (qj < b')%Q)
  | Raise e =>
      e = TypeError
      /\ exists k r,
          results !! k = Some r /\ succeeded r /\ score_of r = None
  end.

(** *** Scripts for the examples *)

(** A script that answers the first calls from a list and fails any
    further call. *)
Definition scripted (outcomes : list post_outcome) : nat -> post_outcome :=
  fun k => nth k outcomes (PostRaised "connection refused").

(** A reply with status 200 and a JSON answer. *)
Definition scored (answer : string) (score : pyval) : post_outcome :=
  Responded
    (mk_response 200 ""
       (JsonValue (PDict {[ "answer" := PStr answer; "score" := score;
                            "start" := PInt 0; "end" := PInt 1 ]}))).

(** A reply with the given status and no usable body. *)
Definition failed (status_code : Z) : post_outcome :=
  Responded (mk_response status_code "unavailable" (JsonError "no JSON")).

(** A word of 600 characters: two of them do not fit one chunk of the
    default maximum length. *)
Definition long_word : string := PyStr.mul "a" 600.

Definition one_chunk_document : PDFQuestionAnswering :=
  mk_qa "token" "hello world" "deepset/roberta-base-squad2"
        (inference_url "deepset/roberta-base-squad2")
        {[ "Authorization" := "Bearer token" ]}.

Definition two_chunk_document : PDFQuestionAnswering :=
  mk_qa "token" (PyStr.join [long_word; long_word])
        "deepset/roberta-base-squad2"
        (inference_url "deepset/roberta-base-squad2")
        {[ "Authorization" := "Bearer token" ]}.

Definition three_chunk_document : PDFQuestionAnswering :=
  mk_qa "token" (PyStr.join [long_word; long_word; long_word])
        "deepset/roberta-base-squad2"
        (inference_url "deepset/roberta-base-squad2")
        {[ "Authorization" := "Bearer token" ]}.

Definition blank_document : PDFQuestionAnswering :=
  mk_qa "token" " " "deepset/roberta-base-squad2"
        (inference_url "deepset/roberta-base-squad2")
        {[ "Authorization" := "Bearer token" ]}.

(** *** The other methods *)

(** [change_model]. *)
Definition change_model (self : PDFQuestionAnswering) (model_name : string)
  : PDFQuestionAnswering :=
  mk_qa (hf_api_token self) (pdf_text self) model_name
        (inference_url model_name) (headers self).

(** [self.working_models]: [__init__] assigns this table and no method
    changes it. *)
Definition working_models : gmap string (list string) :=
  {[ "qa" := ["deepset/roberta-base-squad2";
              "distilbert-base-cased-distilled-squad";
              "bert-large-uncased-whole-word-masking-finetuned-squad"];
     "generation" := ["gpt2"; "microsoft/DialoGPT-medium";
                      "google/flan-t5-base"];
     "summarization" := ["facebook/bart-large-cnn";
                         "sshleifer/distilbart-cnn-12-6"] ]}.

(** What [find_working_model] returns when no model passes the test. *)
Definition fallback_model : string := "deepset/roberta-base-squad2".

(** The request of [test_model_availability]. *)
Definition availability_payload : pyval :=
  PDict {[ "inputs" := PDict {[ "question" := PStr "test";
                                "context" := PStr "test context" ]} ]}.

Definition availability_request (self : PDFQuestionAnswering)
    (model_name : string) : request :=
  mk_request (inference_url model_name) (headers self)
             availability_payload None.

(** [response.status_code != 404], and [False] when the call raises. *)
Definition available (o : post_outcome) : bool :=
  match o with
  | Responded r => negb (status_code r =? 404)
  | PostRaised _ => false
  end.

(** The object as [__init__], [change_model] and [extract_text_from_pdf]
    keep it: the URL is the one of the model, the header carries the
    token. *)
Definition consistent (self : PDFQuestionAnswering) : Prop :=
  api_url self = inference_url (model_name self)
  /\ headers self = {[ "Authorization" := "Bearer " +:+ hf_api_token self ]}.

(** The objects that the class can build: [__init__] creates one, and
    [change_model] and [extract_text_from_pdf] are the only methods that
    assign an attribute. *)
Inductive reachable : PDFQuestionAnswering -> Prop :=
| reachable_new (hf_api_token model_name : string) :
    reachable (new hf_api_token model_name)
| reachable_change_model (self : PDFQuestionAnswering)
    (model_name : string) :
    reachable self -> reachable (change_model self model_name)
| reachable_extract (self : PDFQuestionAnswering)
    (pages : option (list string)) :
    reachable self -> reachable (snd (extract_text_from_pdf self pages)).

Section OtherMethods.

Variable responses : nat -> post_outcome.

(** [test_model_availability]. *)
Definition test_model_availability (self : PDFQuestionAnswering)
    (model_name : string) : M bool :=
  o <- requests_post responses (availability_request self model_name) ;;
  ret (available o).

(** The loop [for model in models_to_test] and the fallback after it. *)
Fixpoint first_working (self : PDFQuestionAnswering)
    (models_to_test : list string) : M string :=
  match models_to_test with
  | [] => ret fallback_model
  | model :: rest =>
      ok <- test_model_availability self model ;;
      if (ok : bool) then ret model else first_working self rest
  end.

(** [find_working_model] over a table of models: the default
    [table["qa"]] of [get] is evaluated before the lookup. *)
Definition find_working_model_in (table : gmap string (list string))
    (self : PDFQuestionAnswering) (task_type : string) : M string :=
  match table !! "qa" with
  | None => raise (KeyError "qa")
  | Some qa_models =>
      let models_to_test :=
        match table !! task_type with
        | Some models => models
        | None => qa_models
        end in
      first_working self models_to_test
  end.

(** [find_working_model]. *)
Definition find_working_model (self : PDFQuestionAnswering)
    (task_type : string) : M string :=
  find_working_model_in working_models self task_type.

End OtherMethods.

(** [self.working_models.get(task_type, self.working_models["qa"])] on
    the table of [__init__]. *)
Definition models_to_test (task_type : string) : list string :=
  match working_models !! task_type with
  | Some models => models
  | None =>
      ["deepset/roberta-base-squad2";
       "distilbert-base-cased-distilled-squad";
       "bert-large-uncased-whole-word-masking-finetuned-squad"]
  end.

(** The text that [extract_text_from_pdf] builds before stripping it. *)
Definition pages_text (pages : list string) : string :=
  foldl (fun text page => text +:+ page +:+ newline) "" pages.

(** The outcome of the test of the model of index [i] when the loop is
    entered with the log [calls]. *)
Definition test_outcome (responses : nat -> post_outcome)
    (calls : list request) (i : nat) : post_outcome :=
  responses (List.length calls + i)%nat.

End QA.

(** ** The handler of [POST /process] in [app.py] *)

Module App.

Definition HUGGINGFACE_API_URL : string :=
  "https://api-inference.huggingface.co/models/".

(** An uploaded file: its name, and what [file.read().decode('utf-8')]
    gives, [None] when the bytes are not UTF-8. A file is truthy when its
    name is not empty. *)
Record FileStorage := mk_file {
  filename : string;
  decoded : option string
}.

Record flask_request := mk_flask_request {
  files : gmap string FileStorage;
  form : gmap string string
}.

(** The JSON body and the status of the reply; a view that returns a
    dict replies with status 200. *)
Record flask_response := mk_flask_response {
  body : dict;
  status : Z
}.

(** A form field that [not] accepts: absent from the form, which
    [request.form.get] reports as [None], or empty. *)
Definition missing (field : option string) : Prop :=
  Py.truthy_optional field = false.

Definition file_truthy (file : option FileStorage) : bool :=
  match file with
  | Some f => PyStr.truthy (filename f)
  | None => false
  end.

Definition rejection : flask_response :=
  mk_flask_response
    {[ "status" := PStr "error";
       "message" := PStr "Model and prompt are required." ]}
    400.

Definition payload (prompt context : string) : pyval :=
  if negb (PyStr.truthy context) then
    PDict {[ "inputs" := PDict {[ "question" := PStr prompt ]} ]}
  else
    PDict {[ "inputs" := PDict {[ "question" := PStr prompt;
                                  "context" := PStr context ]} ]}.

(** The [try] block of [process] after the call, with its handler. *)
Definition reply_of_outcome (model : string) (o : post_outcome)
  : flask_response :=
  let failure message :=
    mk_flask_response
      {[ "status" := PStr "failure"; "error" := PStr message ]} 500 in
  match o with
  | PostRaised message => failure message
  | Responded r =>
      if status_code r =? 200 then
        match json r with
        | JsonError message => failure message
        | JsonValue (PDict result) =>
            mk_flask_response
              {[ "status" := PStr "success";
                 "answer" := get result "answer" (PStr "No answer found");
                 "score" := get result "score" (PInt 0);
                 "start" := get result "start" (PInt 0);
                 "end" := get result "end" (PInt 0) ]}
              200
        | JsonValue v =>
            failure ("'" +:+ type_name v
                     +:+ "' object has no attribute 'get'")
        end
      else if status_code r =? 404 then
        mk_flask_response
          (error_dict ("Model '" +:+ model
                       +:+ "' not found. Try changing to a different model."))
          200
      else if status_code r =? 503 then
        mk_flask_response
          (error_dict "Model is loading. Please wait a moment and try again.")
          200
      else
        mk_flask_response
          (error_dict ("API request failed: " +:+ pretty (status_code r)
                       +:+ " - " +:+ text r))
          200
  end.

Section Handler.

Variable responses : nat -> post_outcome.

(** [process]. *)
Definition process (request : flask_request) : M flask_response :=
  let file := files request !! "file" in
  let model := form request !! "hf_model" in
  let token := form request !! "hf_token" in
  let prompt := form request !! "prompt" in
  if negb (Py.truthy_optional model) || negb (Py.truthy_optional prompt) then
    ret rejection
  else
    file_content <-
      lift (if file_truthy file then
              match file ≫= decoded with
              | Some content => Ok content
              | None => Raise UnicodeDecodeError
              end
            else Ok "") ;;
    let context : string := file_content in
    let headers : gmap string string :=
      {[ "Authorization" := "Bearer " +:+ Py.str_of_optional token ]} in
    let hf_url := HUGGINGFACE_API_URL +:+ Py.str_of_optional model in
    o <- requests_post responses
           (mk_request hf_url headers
              (payload (Py.str_of_optional prompt) context) (Some 60)) ;;
    ret (reply_of_outcome (Py.str_of_optional model) o).

End Handler.

(** *** Requests for the examples *)

(** The request of [test_missing_model]. *)
Definition request_without_model : flask_request :=
  mk_flask_request
    ∅ {[ "hf_token" := "dummy"; "prompt" := "What is AI?" ]}.

(** The request of [test_missing_prompt]. *)
Definition request_without_prompt : flask_request :=
  mk_flask_request
    ∅ {[ "hf_token" := "dummy"; "hf_model" := "bert-base-uncased" ]}.

(** The request of [test_valid_request]. *)
Definition valid_request : flask_request :=
  mk_flask_request
    ∅ {[ "hf_token" := "dummy"; "hf_model" := "bert-base-uncased";
         "prompt" := "What is AI?" ]}.

End App.

(** * Properties *)

Example chunk_text_example_1 :
  Chunker.chunk_text "aaaa bb cc" 5 = ["aaaa"; "bb cc"].
Proof. reflexivity. Qed.

Example chunk_text_example_2 :
  Chunker.chunk_text "  the quick
 brown	fox  " 9 = ["the"; "quick"; "brown fox"].
Proof. reflexivity. Qed.

Example chunk_text_example_3 :
  Chunker.chunk_text "the quick brown fox" 10 = ["the quick"; "brown fox"].
Proof. reflexivity. Qed.

Example chunk_text_example_4 :
  Chunker.chunk_text "a verylongword b c" 4 = ["a"; "verylongword"; "b c"].
Proof. reflexivity. Qed.

(** ** Strings: length, [join] and [split] *)

Section StringFacts.

Import PyStr.

Lemma append_cons (c : ascii) (a b : string) :
  String c a +:+ b = String c (a +:+ b).
Proof. reflexivity. Qed.

Lemma append_empty_l (s : string) : "" +:+ s = s.
Proof. reflexivity. Qed.

Lemma append_empty_r (s : string) : s +:+ "" = s.
Proof.
  induction s as [|c s IH]; [reflexivity|].
  now rewrite append_cons, IH.
Qed.

Lemma append_assoc (a b c : string) : (a +:+ b) +:+ c = a +:+ (b +:+ c).
Proof.
  induction a as [|x a IH]; [reflexivity|].
  now rewrite !append_cons, IH.
Qed.

Lemma len_nonneg (s : string) : 0 <= len s.
Proof. unfold len. lia. Qed.

Lemma len_append (a b : string) : len (a +:+ b) = len a + len b.
Proof.
  unfold len. induction a as [|x a IH].
  - rewrite append_empty_l. simpl. lia.
  - rewrite append_cons. simpl String.length. lia.
Qed.

Lemma len_cons (c : ascii) (s : string) : len (String c s) = 1 + len s.
Proof. unfold len. simpl String.length. lia. Qed.

Lemma len_zero (s : string) : len s = 0 -> s = "".
Proof. destruct s; [reflexivity|]. rewrite len_cons. pose proof (len_nonneg s). lia. Qed.

Lemma is_word_len (w : string) : is_word w -> 1 <= len w.
Proof.
  intros [Hne _]. destruct w as [|c w]; [congruence|].
  rewrite len_cons. pose proof (len_nonneg w). lia.
Qed.

Lemma space_isspace : isspace " "%char = true.
Proof. reflexivity. Qed.

Lemma nospace_append (a b : string) :
  nospace (a +:+ b) = nospace a && nospace b.
Proof.
  induction a as [|x a IH]; [reflexivity|].
  rewrite append_cons. simpl. rewrite IH. now rewrite andb_assoc.
Qed.

Lemma emit_nonempty (w : string) : w <> "" -> emit w = [w].
Proof. destruct w; [congruence | reflexivity]. Qed.

Lemma append_nonempty_r (a : string) (c : ascii) : a +:+ String c "" <> "".
Proof. destruct a; discriminate. Qed.

(** Scanning a whitespace-free prefix only extends the current word. *)
Lemma split_scan_nospace (w acc s : string) :
  nospace w = true ->
  split_scan acc (w +:+ s) = split_scan (acc +:+ w) s.
Proof.
  revert acc. induction w as [|c w IH]; intros acc Hw.
  - now rewrite append_empty_l, append_empty_r.
  - simpl in Hw. apply andb_prop in Hw as [Hc Hw].
    apply negb_true_iff in Hc. rewrite append_cons. simpl. rewrite Hc.
    rewrite IH by assumption. now rewrite append_assoc.
Qed.

(** A space ends the current word, whatever precedes it. *)
Lemma split_scan_app_space (a acc b : string) :
  split_scan acc (a +:+ String " " b) = split_scan acc a ++ split b.
Proof.
  revert acc. induction a as [|c a IH]; intros acc.
  - reflexivity.
  - rewrite append_cons. simpl. destruct (isspace c).
    + rewrite IH. now rewrite app_assoc.
    + apply IH.
Qed.

Lemma split_scan_words (acc s : string) :
  nospace acc = true -> Forall is_word (split_scan acc s).
Proof.
  revert acc. induction s as [|c s IH]; intros acc Hacc; simpl.
  - destruct acc; simpl; constructor; [|constructor].
    split; [discriminate | assumption].
  - destruct (isspace c) eqn:Hc.
    + apply Forall_app. split; [|now apply IH].
      destruct acc; simpl; constructor; [|constructor].
      split; [discriminate | assumption].
    + apply IH. rewrite nospace_append, Hacc. simpl. now rewrite Hc.
Qed.

(** Every element of [s.split()] is a word. *)
Lemma split_words (s : string) : Forall is_word (split s).
Proof. now apply split_scan_words. Qed.

Lemma split_word (w : string) : is_word w -> split w = [w].
Proof.
  intros [Hne Hw]. unfold split.
  rewrite <- (append_empty_r w) at 1.
  rewrite split_scan_nospace by assumption. simpl.
  now apply emit_nonempty.
Qed.

(** [" ".join(xs).split()] is the concatenation of the [x.split()]. *)
Lemma split_join_concat (xs : list string) :
  split (join xs) = concat (map split xs).
Proof.
  induction xs as [|x [|y r] IH].
  - reflexivity.
  - simpl. now rewrite app_nil_r.
  - change (join (x :: y :: r)) with (x +:+ String " " (join (y :: r))).
    unfold split at 1. rewrite split_scan_app_space. rewrite IH.
    reflexivity.
Qed.

Lemma Forall_concat_map_id (ws : list string) :
  Forall is_word ws -> concat (map split ws) = ws.
Proof.
  induction 1 as [|w ws Hw _ IH]; [reflexivity|].
  simpl. rewrite split_word by assumption. simpl. now rewrite IH.
Qed.

(** Splitting a join of words gives the words back. *)
Lemma split_join (ws : list string) :
  Forall is_word ws -> split (join ws) = ws.
Proof. intros H. rewrite split_join_concat. now apply Forall_concat_map_id. Qed.

Lemma join_single (w : string) : join [w] = w.
Proof. reflexivity. Qed.

Lemma join_cons (w : string) (ws : list string) :
  ws <> [] -> join (w :: ws) = w +:+ String " " (join ws).
Proof. destruct ws; [congruence | reflexivity]. Qed.

Lemma join_snoc (ws : list string) (w : string) :
  ws <> [] -> join (ws ++ [w]) = join ws +:+ String " " w.
Proof.
  induction ws as [|x [|y r] IH]; intros Hne; [congruence | reflexivity |].
  change (join ((x :: y :: r) ++ [w]))
    with (x +:+ String " " (join ((y :: r) ++ [w]))).
  rewrite IH by discriminate.
  change (join (x :: y :: r)) with (x +:+ String " " (join (y :: r))).
  rewrite append_assoc. reflexivity.
Qed.

Lemma len_join_snoc (ws : list string) (w : string) :
  ws <> [] -> len (join (ws ++ [w])) = len (join ws) + 1 + len w.
Proof.
  intros H. rewrite join_snoc by assumption.
  rewrite len_append, len_cons. lia.
Qed.

Lemma nospace_no_blank (s : string) : nospace s = true -> no_blank s = true.
Proof.
  induction s as [|c s IH]; simpl; [reflexivity|].
  intros H. apply andb_prop in H as [Hc Hs]. rewrite IH by assumption.
  rewrite andb_true_r. destruct (Ascii.eqb c " "%char) eqn:E; [|reflexivity].
  apply Ascii.eqb_eq in E. subst c. discriminate.
Qed.

Lemma split_on_space_scan_no_blank (w acc s : string) :
  no_blank w = true ->
  split_on_space_scan acc (w +:+ s) = split_on_space_scan (acc +:+ w) s.
Proof.
  revert acc. induction w as [|c w IH]; intros acc Hw.
  - now rewrite append_empty_l, append_empty_r.
  - simpl in Hw. apply andb_prop in Hw as [Hc Hw].
    apply negb_true_iff in Hc. rewrite append_cons. simpl. rewrite Hc.
    rewrite IH by assumption. now rewrite append_assoc.
Qed.

Lemma split_on_space_join (ws : list string) :
  ws <> [] -> Forall (fun w => no_blank w = true) ws ->
  split_on_space (join ws) = ws.
Proof.
  induction ws as [|x [|y r] IH]; intros Hne Hall; [congruence | |].
  - apply Forall_inv in Hall. unfold split_on_space.
    pose proof (split_on_space_scan_no_blank x "" "" Hall) as E.
    rewrite append_empty_r, append_empty_l in E. exact E.
  - pose proof (Forall_inv Hall) as Hx. apply Forall_inv_tail in Hall.
    change (join (x :: y :: r)) with (x +:+ String " " (join (y :: r))).
    unfold split_on_space. rewrite split_on_space_scan_no_blank by assumption.
    rewrite append_empty_l. simpl. f_equal.
    apply IH; [discriminate | assumption].
Qed.

End StringFacts.

(** ** The chunker *)

Section ChunkerFacts.

Import PyStr Chunker.

Variable max_length : Z.

Local Abbreviation bounded := (bounded max_length).
Local Abbreviation bound_inv := (bound_inv max_length).
Local Abbreviation first_ok := (first_ok max_length).
Local Abbreviation first_inv := (first_inv max_length).

(** *** Joining late is the same as joining at every flush *)

Lemma flush_forget (gs : list (list string)) (cur : list string) :
  flush (map join gs) cur = map join (gflush gs cur).
Proof.
  destruct cur; [reflexivity|].
  unfold flush, gflush. now rewrite map_app.
Qed.

Lemma step_groups (st : gstate) (word : string) :
  step max_length (forget st) word = forget (gstep max_length st word).
Proof.
  unfold step, gstep, forget. simpl.
  destruct (glength st + len word + 1 <=? max_length); simpl;
    [reflexivity|].
  now rewrite flush_forget.
Qed.

Lemma foldl_step_groups (words : list string) (st : gstate) :
  foldl (step max_length) (forget st) words
  = forget (foldl (gstep max_length) st words).
Proof.
  revert st. induction words as [|w ws IH]; intros st; [reflexivity|].
  simpl. rewrite step_groups. apply IH.
Qed.

Lemma chunk_words_groups (words : list string) :
  chunk_words words max_length = map join (word_groups words max_length).
Proof.
  unfold chunk_words, word_groups.
  change init with (forget ginit). rewrite foldl_step_groups.
  simpl. apply flush_forget.
Qed.

(** *** The groups partition the words *)

Lemma concat_gflush (gs : list (list string)) (cur : list string) :
  concat (gflush gs cur) = concat gs ++ cur.
Proof.
  destruct cur; simpl; [now rewrite app_nil_r|].
  rewrite concat_app. simpl. now rewrite app_nil_r.
Qed.

Lemma gstep_concat (st : gstate) (word : string) :
  let st' := gstep max_length st word in
  concat (groups st') ++ gcurrent st'
  = (concat (groups st) ++ gcurrent st) ++ [word].
Proof.
  unfold gstep.
  destruct (glength st + len word + 1 <=? max_length); simpl.
  - now rewrite app_assoc.
  - now rewrite concat_gflush.
Qed.

Lemma foldl_gstep_concat (words : list string) (st : gstate) :
  let st' := foldl (gstep max_length) st words in
  concat (groups st') ++ gcurrent st'
  = (concat (groups st) ++ gcurrent st) ++ words.
Proof.
  revert st. induction words as [|w ws IH]; intros st; simpl.
  - now rewrite app_nil_r.
  - rewrite IH, gstep_concat. now rewrite <- app_assoc.
Qed.

Lemma word_groups_concat (words : list string) :
  concat (word_groups words max_length) = words.
Proof.
  unfold word_groups. rewrite concat_gflush.
  now rewrite foldl_gstep_concat.
Qed.

(** *** No group is empty *)

Lemma gflush_nonempty (gs : list (list string)) (cur : list string) :
  Forall (fun g => g <> []) gs -> Forall (fun g => g <> []) (gflush gs cur).
Proof.
  intros H. destruct cur; [exact H|].
  apply Forall_app. split; [exact H|]. now repeat constructor.
Qed.

Lemma foldl_gstep_nonempty (words : list string) (st : gstate) :
  Forall (fun g => g <> []) (groups st) ->
  Forall (fun g => g <> []) (groups (foldl (gstep max_length) st words)).
Proof.
  revert st. induction words as [|w ws IH]; intros st H; [exact H|].
  simpl. apply IH. unfold gstep.
  destruct (glength st + len w + 1 <=? max_length); simpl;
    [exact H | now apply gflush_nonempty].
Qed.

Lemma word_groups_nonempty (words : list string) :
  Forall (fun g => g <> []) (word_groups words max_length).
Proof.
  unfold word_groups. apply gflush_nonempty, foldl_gstep_nonempty.
  constructor.
Qed.

(** *** The length bound *)

Lemma bounded_of_current (cur : list string) (n : Z) :
  len (join cur) <= n ->
  (n <= max_length \/ exists w, cur = [w]) ->
  bounded cur.
Proof.
  intros Hlen [Hn | [w ->]].
  - left. lia.
  - destruct (Z_le_gt_dec (len (join [w])) max_length) as [H | H].
    + now left.
    + right. exists w. split; [reflexivity|].
      change (join [w]) with w in H. lia.
Qed.

Lemma gflush_bounded (st : gstate) :
  bound_inv st -> Forall bounded (gflush (groups st) (gcurrent st)).
Proof.
  intros (Hgs & _ & Hcur). unfold gflush.
  destruct (gcurrent st) as [|w r] eqn:E; [exact Hgs|].
  apply Forall_app. split; [exact Hgs|].
  constructor; [|constructor].
  destruct Hcur as [Hlen Hn]; [discriminate|].
  now apply (bounded_of_current _ (glength st)).
Qed.

Lemma gstep_bound_inv (st : gstate) (word : string) :
  bound_inv st -> bound_inv (gstep max_length st word).
Proof.
  intros Hinv. pose proof (gflush_bounded st Hinv) as Hflush.
  destruct Hinv as (Hgs & Hpos & Hcur).
  pose proof (len_nonneg word) as Hw.
  unfold gstep.
  destruct (Z.leb_spec (glength st + len word + 1) max_length) as [Hle | Hgt];
    (split; [|split]); simpl; try assumption; try lia.
  - intros _. split; [|left; lia].
    destruct (gcurrent st) as [|x r] eqn:E.
    + simpl. rewrite join_single. lia.
    + rewrite len_join_snoc by discriminate.
      destruct Hcur as [Hlen _]; [discriminate|]. lia.
  - intros _. split; [rewrite join_single; lia|]. right. now exists word.
Qed.

Lemma foldl_gstep_bound_inv (words : list string) (st : gstate) :
  bound_inv st -> bound_inv (foldl (gstep max_length) st words).
Proof.
  revert st. induction words as [|w ws IH]; intros st H; [exact H|].
  simpl. now apply IH, gstep_bound_inv.
Qed.

Lemma ginit_bound_inv : bound_inv ginit.
Proof.
  split; [constructor|]. split; [simpl; lia|]. simpl. congruence.
Qed.

Lemma word_groups_bounded (words : list string) :
  Forall bounded (word_groups words max_length).
Proof.
  unfold word_groups. apply gflush_bounded, foldl_gstep_bound_inv.
  exact ginit_bound_inv.
Qed.

(** *** The first group *)

Lemma gstep_first_inv (st : gstate) (word : string) :
  first_inv st -> first_inv (gstep max_length st word).
Proof.
  unfold first_inv, gstep. intros H.
  pose proof (len_nonneg word) as Hw.
  destruct (Z.leb_spec (glength st + len word + 1) max_length) as [Hle | Hgt];
    simpl.
  - destruct (groups st) as [|g gs]; [|exact H].
    destruct H as [[Hc Hl] | [(Hc & Hl & Hm) | (w & Hc & Hl & Hm)]].
    + right. left. rewrite Hc. simpl. rewrite join_single.
      split; [discriminate|]. lia.
    + right. left. split; [now destruct (gcurrent st)|].
      rewrite len_join_snoc by assumption. lia.
    + lia.
  - destruct (groups st) as [|g gs].
    + destruct H as [[Hc Hl] | [(Hc & Hl & Hm) | (w & Hc & Hl & Hm)]].
      * rewrite Hc. simpl. right. right. exists word.
        split; [reflexivity|]. split; [reflexivity|]. lia.
      * unfold gflush. destruct (gcurrent st) as [|x r] eqn:E; [congruence|].
        simpl. left. lia.
      * rewrite Hc. simpl. right. now exists w.
    + unfold gflush. destruct (gcurrent st); simpl; exact H.
Qed.

Lemma foldl_gstep_first_inv (words : list string) (st : gstate) :
  first_inv st -> first_inv (foldl (gstep max_length) st words).
Proof.
  revert st. induction words as [|w ws IH]; intros st H; [exact H|].
  simpl. now apply IH, gstep_first_inv.
Qed.

Lemma word_groups_first (words : list string) (g : list string)
    (rest : list (list string)) :
  word_groups words max_length = g :: rest -> first_ok g.
Proof.
  unfold word_groups.
  pose proof (foldl_gstep_first_inv words ginit) as H.
  specialize (H (or_introl (conj eq_refl eq_refl))).
  set (st := foldl (gstep max_length) ginit words) in *.
  unfold first_inv in H. unfold gflush.
  destruct (groups st) as [|g0 gs].
  - destruct H as [[Hc Hl] | [(Hc & Hl & Hm) | (w & Hc & Hl & Hm)]].
    + rewrite Hc. discriminate.
    + destruct (gcurrent st) as [|x r] eqn:E; [congruence|].
      simpl. intros [= <- <-]. left. lia.
    + rewrite Hc. simpl. intros [= <- <-]. right. now exists w.
  - destruct (gcurrent st); simpl; intros [= <- <-]; exact H.
Qed.

End ChunkerFacts.

(** ** [chunk_text] on a text *)

Section ChunkTextFacts.

Import PyStr Chunker.

Lemma Forall_concat_inv {A} (P : A -> Prop) (ls : list (list A)) :
  Forall P (concat ls) -> Forall (Forall P) ls.
Proof.
  induction ls as [|l ls IH]; intros H; constructor.
  - simpl in H. now apply Forall_app in H as [H _].
  - apply IH. simpl in H. now apply Forall_app in H as [_ H].
Qed.

Lemma chunk_text_groups (text : string) (max_length : Z) :
  chunk_text text max_length
  = map join (word_groups (split text) max_length).
Proof. apply chunk_words_groups. Qed.

(** Every group of [chunk_text] is made of words of the text. *)
Lemma word_groups_words (text : string) (max_length : Z) :
  Forall (Forall is_word) (word_groups (split text) max_length).
Proof.
  apply Forall_concat_inv. rewrite word_groups_concat. apply split_words.
Qed.

Lemma map_split_join (gs : list (list string)) :
  Forall (Forall is_word) gs -> map split (map join gs) = gs.
Proof.
  induction 1 as [|g gs Hg _ IH]; [reflexivity|].
  simpl. now rewrite split_join, IH.
Qed.

Lemma map_split_on_space_join (gs : list (list string)) :
  Forall (fun g => g <> []) gs -> Forall (Forall is_word) gs ->
  map split_on_space (map join gs) = gs.
Proof.
  induction 1 as [|g gs Hne _ IH]; intros Hw; [reflexivity|].
  pose proof (Forall_inv Hw) as Hg. apply Forall_inv_tail in Hw.
  simpl. rewrite IH by assumption. f_equal.
  apply split_on_space_join; [assumption|].
  eapply Forall_impl; [exact Hg|]. intros w [_ H].
  now apply nospace_no_blank.
Qed.

(** A chunk is never the empty string. *)
Lemma join_words_nonempty (g : list string) :
  g <> [] -> Forall is_word g -> join g <> "".
Proof.
  intros Hne Hg. destruct g as [|w r]; [congruence|].
  apply Forall_inv in Hg. destruct Hg as [Hw _].
  destruct r; [exact Hw|].
  change (join (w :: s :: r)) with (w +:+ String " " (join (s :: r))).
  destruct w; [congruence | discriminate].
Qed.

Lemma chunk_text_nonempty_chunks (text : string) (max_length : Z) :
  Forall (fun chunk => chunk <> "") (chunk_text text max_length).
Proof.
  rewrite chunk_text_groups. apply Forall_map.
  pose proof (word_groups_nonempty max_length (split text)) as Hne.
  pose proof (word_groups_words text max_length) as Hw.
  induction Hne as [|g gs Hg _ IH]; constructor.
  - apply join_words_nonempty; [assumption | now apply Forall_inv in Hw].
  - apply IH. now apply Forall_inv_tail in Hw.
Qed.

(** There is a chunk exactly when there is a word. *)
Lemma chunk_text_nil_iff (text : string) (max_length : Z) :
  chunk_text text max_length = [] <-> split text = [].
Proof.
  rewrite chunk_text_groups.
  pose proof (word_groups_concat max_length (split text)) as Hc.
  pose proof (word_groups_nonempty max_length (split text)) as Hne.
  destruct (word_groups (split text) max_length) as [|g gs].
  - simpl in Hc. now rewrite <- Hc.
  - apply Forall_inv in Hne. split; [discriminate|].
    intros E. rewrite E in Hc. simpl in Hc.
    destruct g; [congruence | discriminate].
Qed.

End ChunkTextFacts.

(** C1. For every text and every maximum length of at least 1, the words
    of the chunks of [chunk_text], taken chunk after chunk, are exactly
    the words of the text: splitting every chunk on single spaces, or on
    whitespace, and concatenating gives [text.split()], and so does
    splitting the chunks rejoined with spaces. The chunks are the joins of
    non-empty groups of words whose concatenation is [text.split()], so
    no word is lost, repeated, split or moved. *)
Theorem chunk_text_keeps_words (text : string) (max_length : Z) :
  1 <= max_length ->
  let chunks := Chunker.chunk_text text max_length in
  concat (map PyStr.split_on_space chunks) = PyStr.split text
  /\ concat (map PyStr.split chunks) = PyStr.split text
  /\ PyStr.split (PyStr.join chunks) = PyStr.split text
  /\ exists gs : list (list string),
       chunks = map PyStr.join gs
       /\ Forall (fun g => g <> []) gs
       /\ concat gs = PyStr.split text.
Proof.
  intros _ chunks. subst chunks. rewrite chunk_text_groups.
  pose proof (word_groups_concat max_length (PyStr.split text)) as Hc.
  pose proof (word_groups_nonempty max_length (PyStr.split text)) as Hne.
  pose proof (word_groups_words text max_length) as Hw.
  split; [now rewrite map_split_on_space_join|].
  split; [now rewrite map_split_join|].
  split; [rewrite split_join_concat; now rewrite map_split_join|].
  eexists. split; [reflexivity|]. now split.
Qed.

Lemma chunk_text_keeps_words_witness :
  concat (map PyStr.split_on_space
            (Chunker.chunk_text "a verylongword  b c" 4))
  = ["a"; "verylongword"; "b"; "c"].
Proof.
  exact (proj1 (chunk_text_keeps_words "a verylongword  b c" 4
                  ltac:(vm_compute; discriminate))).
Defined.

(** C2. For every text and every maximum length of at least 1, a chunk
    of [chunk_text] is at most [max_length] characters long, unless it is
    one single word of the text that is itself longer than [max_length]. *)
Theorem chunk_text_length_bound (text : string) (max_length : Z)
    (chunk : string) :
  1 <= max_length ->
  In chunk (Chunker.chunk_text text max_length) ->
  PyStr.len chunk <= max_length
  \/ (In chunk (PyStr.split text)
      /\ PyStr.split chunk = [chunk]
      /\ max_length < PyStr.len chunk).
Proof.
  intros _ Hin. rewrite chunk_text_groups in Hin.
  apply in_map_iff in Hin as (g & <- & Hg).
  pose proof (word_groups_bounded max_length (PyStr.split text)) as Hb.
  rewrite Forall_forall in Hb.
  destruct (Hb g) as [Hle | (w & -> & Hlt)];
    [now apply list_elem_of_In | now left |].
  right. rewrite join_single.
  assert (Hw : In w (PyStr.split text)).
  { rewrite <- (word_groups_concat max_length (PyStr.split text)).
    apply in_concat. exists [w]. split; [exact Hg | now left]. }
  split; [exact Hw|]. split; [|exact Hlt].
  apply split_word.
  pose proof (split_words text) as Hall. rewrite Forall_forall in Hall.
  now apply Hall, list_elem_of_In.
Qed.

Lemma chunk_text_length_bound_witness :
  PyStr.len "verylongword" <= 4
  \/ (In "verylongword" (PyStr.split "a verylongword b c")
      /\ PyStr.split "verylongword" = ["verylongword"]
      /\ 4 < PyStr.len "verylongword").
Proof.
  apply (chunk_text_length_bound "a verylongword b c" 4 "verylongword").
  - vm_compute; discriminate.
  - vm_compute. right. left. reflexivity.
Defined.

(** C8. For every maximum length of at least 1, [chunk_text] of the
    empty string is the empty list of chunks. *)
Theorem chunk_text_empty (max_length : Z) :
  1 <= max_length -> Chunker.chunk_text "" max_length = [].
Proof. intros _. reflexivity. Qed.

Lemma chunk_text_empty_witness : Chunker.chunk_text "" 1000 = [].
Proof. apply (chunk_text_empty 1000). vm_compute; discriminate. Defined.

(** ** The separator charged to the first word *)

Section FirstChunk.

Import PyStr Chunker.

Lemma mul_a_nospace (n : nat) : nospace (mul "a" n) = true.
Proof.
  induction n as [|n IH]; [reflexivity|].
  simpl mul. now rewrite nospace_append, IH.
Qed.

Lemma mul_a_len (n : nat) : len (mul "a" n) = Z.of_nat n.
Proof.
  induction n as [|n IH]; [reflexivity|].
  simpl mul. rewrite len_append, IH. unfold len. simpl String.length. lia.
Qed.

Lemma mul_a_word (n : nat) : (0 < n)%nat -> is_word (mul "a" n).
Proof.
  intros Hn. split; [|apply mul_a_nospace].
  intros E. pose proof (mul_a_len n) as Hl. rewrite E in Hl.
  unfold len in Hl. simpl in Hl. lia.
Qed.

Lemma step_fits (max_length : Z) (st : state) (word : string) :
  current_length st + len word + 1 <= max_length ->
  step max_length st word
  = mk_state (chunks st) (current_chunk st ++ [word])
             (current_length st + len word + 1).
Proof.
  intros H. unfold step.
  destruct (Z.leb_spec (current_length st + len word + 1) max_length);
    [reflexivity | lia].
Qed.

Lemma step_overflow (max_length : Z) (st : state) (word : string) :
  max_length < current_length st + len word + 1 ->
  step max_length st word
  = mk_state (flush (chunks st) (current_chunk st)) [word] (len word).
Proof.
  intros H. unfold step.
  destruct (Z.leb_spec (current_length st + len word + 1) max_length);
    [lia | reflexivity].
Qed.

(** After a one-letter first word, a second word of [max_length]
    characters is moved to a chunk of its own. *)
Lemma chunk_text_a_then_long (max_length : Z) :
  1 <= max_length ->
  chunk_text (join ["a"; mul "a" (Z.to_nat max_length)]) max_length
  = ["a"; mul "a" (Z.to_nat max_length)].
Proof.
  intros HL. set (w := mul "a" (Z.to_nat max_length)).
  assert (Hw : is_word w) by (apply mul_a_word; lia).
  assert (Hlen : len w = max_length).
  { unfold w. rewrite mul_a_len. lia. }
  unfold chunk_text. rewrite split_join.
  2:{ constructor; [split; [discriminate | reflexivity]|].
      constructor; [exact Hw | constructor]. }
  unfold chunk_words. simpl foldl.
  assert (Ha : len "a" = 1) by reflexivity.
  assert (H0 : current_length init = 0) by reflexivity.
  destruct (Z_le_gt_dec (current_length init + len "a" + 1) max_length)
    as [H2 | H2].
  - rewrite (step_fits _ init "a") by exact H2.
    rewrite step_overflow
      by (cbn [current_length]; rewrite Hlen, Ha, H0; lia).
    reflexivity.
  - rewrite (step_overflow _ init "a") by lia.
    rewrite step_overflow
      by (cbn [current_length]; rewrite Hlen, Ha; lia).
    reflexivity.
Qed.

(** A word of [max_length - 1] characters fills the first chunk; the
    next two words, of 1 and [max_length - 2] characters, share the second
    chunk and fill it to [max_length] characters exactly. *)
Lemma chunk_text_full_second_chunk (max_length : Z) :
  3 <= max_length ->
  chunk_text (join [mul "a" (Z.to_nat (max_length - 1)); "b";
                    mul "a" (Z.to_nat (max_length - 2))]) max_length
  = [mul "a" (Z.to_nat (max_length - 1));
     join ["b"; mul "a" (Z.to_nat (max_length - 2))]].
Proof.
  intros HL.
  set (w1 := mul "a" (Z.to_nat (max_length - 1))).
  set (w3 := mul "a" (Z.to_nat (max_length - 2))).
  assert (Hw1 : is_word w1) by (apply mul_a_word; lia).
  assert (Hw3 : is_word w3) by (apply mul_a_word; lia).
  assert (Hl1 : len w1 = max_length - 1)
    by (unfold w1; rewrite mul_a_len; lia).
  assert (Hl3 : len w3 = max_length - 2)
    by (unfold w3; rewrite mul_a_len; lia).
  assert (Hb : len "b" = 1) by reflexivity.
  assert (H0 : current_length init = 0) by reflexivity.
  unfold chunk_text. rewrite split_join.
  2:{ constructor; [exact Hw1|].
      constructor; [split; [discriminate | reflexivity]|].
      constructor; [exact Hw3 | constructor]. }
  unfold chunk_words. simpl foldl.
  rewrite (step_fits _ init w1) by (rewrite H0, Hl1; lia).
  rewrite (step_overflow _ _ "b")
    by (cbn [current_length]; rewrite H0, Hl1, Hb; lia).
  rewrite (step_fits _ _ w3)
    by (cbn [current_length]; rewrite Hb, Hl3; lia).
  reflexivity.
Qed.

Lemma len_b_then_word (w : string) : len (join ["b"; w]) = len w + 2.
Proof.
  change (join ["b"; w]) with ("b" +:+ String " " w).
  rewrite len_append, !len_cons. change (len "") with 0. lia.
Qed.

End FirstChunk.

(** C10. For every maximum length of at least 1: the first chunk of
    every text is at most [max_length - 1] characters long, unless it is
    the first word of the text alone and that word has at least
    [max_length] characters, so a first chunk of several words never
    reaches [max_length]; and some text has a chunk after the first that
    is exactly [max_length] characters long, a chunk of two words as soon
    as [max_length] leaves room for two words and a space (3 or more). *)
Theorem first_chunk_is_charged_a_separator (max_length : Z) :
  1 <= max_length ->
  (forall (text chunk : string) (rest : list string),
      Chunker.chunk_text text max_length = chunk :: rest ->
      PyStr.len chunk <= max_length - 1
      \/ (hd_error (PyStr.split text) = Some chunk
          /\ max_length <= PyStr.len chunk))
  /\ (exists (text first chunk : string) (rest : list string),
        Chunker.chunk_text text max_length = first :: chunk :: rest
        /\ PyStr.len chunk = max_length)
  /\ (forall (text chunk : string) (rest : list string),
        Chunker.chunk_text text max_length = chunk :: rest ->
        (2 <= List.length (PyStr.split chunk))%nat ->
        PyStr.len chunk <= max_length - 1)
  /\ (3 <= max_length ->
      exists (text first chunk : string) (rest : list string),
        Chunker.chunk_text text max_length = first :: chunk :: rest
        /\ PyStr.len chunk = max_length
        /\ List.length (PyStr.split chunk) = 2%nat).
Proof.
  intros HL.
  assert (First : forall (text chunk : string) (rest : list string),
      Chunker.chunk_text text max_length = chunk :: rest ->
      PyStr.len chunk <= max_length - 1
      \/ (hd_error (PyStr.split text) = Some chunk
          /\ max_length <= PyStr.len chunk)).
  { intros text chunk rest E. rewrite chunk_text_groups in E.
    pose proof (word_groups_concat max_length (PyStr.split text)) as Hc.
    destruct (Chunker.word_groups (PyStr.split text) max_length)
      as [|g gs] eqn:Eg; [discriminate|].
    injection E as <- _.
    destruct (word_groups_first max_length _ _ _ Eg) as [H | (w & -> & H)].
    + now left.
    + right. rewrite join_single. split; [|exact H].
      rewrite <- Hc. reflexivity. }
  split; [exact First|]. split; [|split].
  - exists (PyStr.join ["a"; PyStr.mul "a" (Z.to_nat max_length)]), "a",
      (PyStr.mul "a" (Z.to_nat max_length)), [].
    split; [now apply chunk_text_a_then_long|].
    rewrite mul_a_len. lia.
  - intros text chunk rest E Hmany.
    destruct (First text chunk rest E) as [H | [Hhd _]]; [exact H|].
    exfalso.
    assert (Hw : PyStr.is_word chunk).
    { pose proof (split_words text) as Hall.
      destruct (PyStr.split text) as [|w ws]; [discriminate|].
      simpl in Hhd. injection Hhd as ->. now apply Forall_inv in Hall. }
    rewrite (split_word chunk Hw) in Hmany. simpl in Hmany. lia.
  - intros H3.
    exists (PyStr.join [PyStr.mul "a" (Z.to_nat (max_length - 1)); "b";
                        PyStr.mul "a" (Z.to_nat (max_length - 2))]),
      (PyStr.mul "a" (Z.to_nat (max_length - 1))),
      (PyStr.join ["b"; PyStr.mul "a" (Z.to_nat (max_length - 2))]), [].
    split; [now apply chunk_text_full_second_chunk|]. split.
    + rewrite len_b_then_word, mul_a_len. lia.
    + rewrite split_join; [reflexivity|].
      constructor; [split; [discriminate | reflexivity]|].
      constructor; [apply mul_a_word; lia | constructor].
Qed.

Lemma first_chunk_is_charged_a_separator_witness :
  PyStr.len "aaaa" <= 5 - 1
  \/ (hd_error (PyStr.split "aaaa bb cc") = Some "aaaa"
      /\ 5 <= PyStr.len "aaaa").
Proof.
  apply (proj1 (first_chunk_is_charged_a_separator 5
                  ltac:(vm_compute; discriminate))
           "aaaa bb cc" "aaaa" ["bb cc"]).
  reflexivity.
Defined.

(** With a maximum of 5, the first chunk of ["aaaa bb cc"] holds 4
    characters and the second, of two words, holds 5. *)
Example later_chunk_reaches_max_length :
  Chunker.chunk_text "aaaa bb cc" 5 = ["aaaa"; "bb cc"]
  /\ PyStr.len "bb cc" = 5
  /\ PyStr.split "bb cc" = ["bb"; "cc"].
Proof. repeat split. Qed.

(** ** The best-answer search *)

Section SelectFacts.

Import QA.

Lemma gt_numbers (a b : pyval) (x y : Q) :
  num a = Some x -> num b = Some y -> gt a b = Ok (negb (Qle_bool x y)).
Proof. intros Ha Hb. unfold gt. now rewrite Ha, Hb. Qed.

Lemma gt_not_a_number (a b : pyval) (y : Q) :
  num a = None -> num b = Some y -> gt a b = Raise TypeError.
Proof.
  intros Ha Hb. unfold gt. rewrite Ha.
  destruct a; try reflexivity; destruct b; try reflexivity; discriminate.
Qed.

(** An error never improves on the best answer, whatever the best is. *)
Lemma improves_error (result best_answer : dict) :
  ~ succeeded result -> improves result best_answer = Ok false.
Proof.
  unfold succeeded, improves, contains. intros H.
  destruct (result !! "error"); [reflexivity | congruence].
Qed.

Lemma improves_succeeded (result best_answer : dict) (b : Q) :
  succeeded result -> best_score best_answer b ->
  improves result best_answer
  = match score_of result with
    | Some q => Ok (negb (Qle_bool q b))
    | None => Raise TypeError
    end.
Proof.
  unfold succeeded, improves, contains, subscript, score_of.
  intros Hs (v & Hv & Hb). rewrite Hs, Hv. simpl.
  destruct (num (get result "score" (PInt 0))) as [q|] eqn:Hq.
  - now apply gt_numbers.
  - now apply (gt_not_a_number _ _ b).
Qed.

Lemma Qle_bool_false (x y : Q) : Qle_bool x y = false -> (y < x)%Q.
Proof.
  intros H. destruct (Qlt_le_dec y x) as [L | L]; [exact L|].
  apply Qle_bool_iff in L. congruence.
Qed.

Lemma best_score_marked (result : dict) (q : Q) (i : Z) :
  is_Some (result !! "score") -> score_of result = Some q ->
  best_score (<[ "chunk_index" := PInt i ]> result) q.
Proof.
  intros [v Hv] Hq. exists v. split.
  - rewrite lookup_insert_ne by discriminate. exact Hv.
  - unfold score_of, get in Hq. now rewrite Hv in Hq.
Qed.

Lemma best_score_sentinel : best_score sentinel 0.
Proof. exists (PInt 0). split; reflexivity. Qed.

Lemma well_shaped_succeeded (result : dict) :
  well_shaped result -> succeeded result ->
  result !! "chunk_index" = None /\ is_Some (result !! "score").
Proof.
  intros [[message ->] | (_ & Hc & Hs)] Hok; [|now split].
  unfold succeeded, error_dict in Hok.
  rewrite lookup_singleton_eq in Hok. discriminate.
Qed.

Lemma select_post_pass (i : nat) (r : dict) (rs : list dict)
    (best_answer : dict) (b : Q) (o : outcome dict) :
  passed_over r b ->
  select_post (S i) rs best_answer b o ->
  select_post i (r :: rs) best_answer b o.
Proof.
  intros Hr. destruct o as [d | e]; simpl.
  - intros (b' & Hd & Hbb' & Hdom & Hcase).
    exists b'. split; [exact Hd|]. split; [exact Hbb'|]. split.
    + intros [|k] r0 Hk Hs; simpl in Hk.
      * injection Hk as <-. destruct Hr as [Hr | (q & Hq & Hle)];
          [contradiction|]. exists q. split; [exact Hq | lra].
      * now apply (Hdom k).
    + destruct Hcase as [Hsame | (k & r0 & Hk & Hs & Hq & Hlt & -> & Hfirst)];
        [now left|].
      right. exists (S k), r0. split; [exact Hk|]. split; [exact Hs|].
      split; [exact Hq|]. split; [exact Hlt|].
      split; [now rewrite Nat.add_succ_r|].
      intros [|j] rj qj Hj Hlook Hsj Hqj; simpl in Hlook.
      * injection Hlook as <-. destruct Hr as [Hr | (q & Hq' & Hle)];
          [contradiction|]. rewrite Hq' in Hqj. injection Hqj as <-. lra.
      * apply (Hfirst j rj qj); [lia | assumption..].
  - intros (He & k & r0 & Hk & Hs & Hq). split; [exact He|].
    now exists (S k), r0.
Qed.

Lemma select_post_take (i : nat) (r : dict) (rs : list dict)
    (best_answer : dict) (b q : Q) (o : outcome dict) :
  succeeded r -> score_of r = Some q -> (b < q)%Q ->
  select_post (S i) rs (<[ "chunk_index" := PInt (Z.of_nat i) ]> r) q o ->
  select_post i (r :: rs) best_answer b o.
Proof.
  intros Hok Hq Hbq. destruct o as [d | e]; simpl.
  - intros (b' & Hd & Hqb' & Hdom & Hcase).
    exists b'. split; [exact Hd|]. split; [lra|]. split.
    + intros [|k] r0 Hk Hs; simpl in Hk.
      * injection Hk as <-. now exists q.
      * now apply (Hdom k).
    + right.
      destruct Hcase as [[-> ->] | (k & r0 & Hk & Hs & Hq0 & Hlt & -> & Hfirst)].
      * exists 0%nat, r. split; [reflexivity|]. split; [exact Hok|].
        split; [exact Hq|]. split; [exact Hbq|].
        split; [now rewrite Nat.add_0_r|]. intros j rj qj Hj. lia.
      * exists (S k), r0. split; [exact Hk|]. split; [exact Hs|].
        split; [exact Hq0|]. split; [lra|].
        split; [now rewrite Nat.add_succ_r|].
        intros [|j] rj qj Hj Hlook Hsj Hqj; simpl in Hlook.
        -- injection Hlook as <-. rewrite Hq in Hqj. injection Hqj as <-.
           exact Hlt.
        -- apply (Hfirst j rj qj); [lia | assumption..].
  - intros (He & k & r0 & Hk & Hs & Hq0). split; [exact He|].
    now exists (S k), r0.
Qed.

(** The loop on the results, once and for all. *)
Lemma select_spec (results : list dict) :
  forall (i : nat) (best_answer : dict) (b : Q),
    Forall well_shaped results -> best_score best_answer b ->
    select_post i results best_answer b (select i results best_answer).
Proof.
  induction results as [|r rs IH]; intros i best_answer b Hshape Hb.
  - simpl. exists b. split; [exact Hb|]. split; [lra|]. split.
    + intros k r Hk. rewrite lookup_nil in Hk. discriminate.
    + now left.
  - pose proof (Forall_inv Hshape) as Hr. apply Forall_inv_tail in Hshape.
    simpl select.
    destruct (r !! "error") as [err|] eqn:Herr.
    + rewrite improves_error by (unfold succeeded; congruence).
      apply select_post_pass; [|now apply IH].
      left. unfold succeeded. congruence.
    + assert (Hok : succeeded r) by exact Herr.
      rewrite (improves_succeeded r best_answer b Hok Hb).
      destruct (score_of r) as [q|] eqn:Hq.
      * destruct (Qle_bool q b) eqn:Hle; simpl.
        -- apply select_post_pass; [|now apply IH].
           right. exists q. split; [exact Hq|]. now apply Qle_bool_iff.
        -- apply (select_post_take i r rs best_answer b q);
             [exact Hok | exact Hq | now apply Qle_bool_false |].
           apply IH; [exact Hshape|].
           apply best_score_marked; [|exact Hq].
           now apply (well_shaped_succeeded r Hr Hok).
      * simpl. split; [reflexivity|]. now exists 0%nat, r.
Qed.

End SelectFacts.

(** ** The calls of a run *)

Section RunFacts.

Import QA.

Variable responses : nat -> post_outcome.
Variable self : PDFQuestionAnswering.
Variable question : string.

Lemma answer_of_outcome_shape (model : string) (o : post_outcome) :
  well_shaped (answer_of_outcome model o).
Proof.
  unfold answer_of_outcome.
  destruct o as [r | message]; [|left; eexists; reflexivity].
  destruct (status_code r =? 200).
  - destruct (json r) as [v | message]; [|left; eexists; reflexivity].
    destruct v; try (left; eexists; reflexivity).
    right. split; [reflexivity|]. split; [reflexivity|]. eexists. reflexivity.
  - destruct (status_code r =? 404); [left; eexists; reflexivity|].
    destruct (status_code r =? 503); left; eexists; reflexivity.
Qed.

(** A call on a chunk that is not empty asks the scorer once, about that
    chunk. *)
Lemma ask_question_chunk (chunk : string) (calls : list request) :
  chunk <> "" ->
  ask_question responses self question (Some chunk) calls
  = (Ok (answer_of_outcome (model_name self)
           (responses (List.length calls))),
     calls ++ [qa_request self question chunk]).
Proof. destruct chunk; [congruence | reflexivity]. Qed.

Lemma chunk_results_succ (calls : list request) (r : request) (n : nat) :
  chunk_results responses self calls (S n)
  = chunk_result responses self calls 0
      :: chunk_results responses self (calls ++ [r]) n.
Proof.
  unfold chunk_results. simpl. f_equal.
  rewrite <- seq_shift, map_map. apply map_ext. intros i.
  unfold chunk_result. rewrite length_app. simpl.
  f_equal. f_equal. lia.
Qed.

Lemma chunk_results_lookup (calls : list request) (n k : nat) (r : dict) :
  chunk_results responses self calls n !! k = Some r
  <-> (k < n)%nat /\ r = chunk_result responses self calls k.
Proof.
  unfold chunk_results.
  change (map (chunk_result responses self calls) (seq 0 n))
    with (chunk_result responses self calls <$> seq 0 n).
  rewrite list_lookup_fmap. split.
  - destruct (seq 0 n !! k) as [j|] eqn:E; [|discriminate].
    apply lookup_seq in E as [-> Hk]. simpl. intros [= <-]. now split.
  - intros [Hk ->].
    assert (E : seq 0 n !! k = Some k) by (apply lookup_seq; split; [reflexivity | exact Hk]).
    now rewrite E.
Qed.

(** The loop makes one call per chunk, and its result is [select] on the
    results of the calls; when nothing is raised, every chunk was sent. *)
Lemma search_run (chunks : list string) :
  Forall (fun chunk => chunk <> "") chunks ->
  forall (i : nat) (best_answer : dict) (calls : list request),
    let run := search responses self question i chunks best_answer calls in
    let o := select i (chunk_results responses self calls (List.length chunks))
                    best_answer in
    fst run = o
    /\ (forall d, o = Ok d ->
        snd run = calls ++ map (qa_request self question) chunks).
Proof.
  induction 1 as [|chunk rest Hne _ IH]; intros i best_answer calls.
  - simpl. split; [reflexivity|]. intros d _. now rewrite app_nil_r.
  - cbn zeta. simpl List.length.
    rewrite (chunk_results_succ calls (qa_request self question chunk)).
    simpl search. unfold bind, lift.
    rewrite ask_question_chunk by exact Hne. simpl select.
    replace (chunk_result responses self calls 0)
      with (answer_of_outcome (model_name self)
              (responses (List.length calls)))
      by (unfold chunk_result; now rewrite Nat.add_0_r).
    destruct (improves _ best_answer) as [[|] | e].
    + destruct (IH (S i)
                  (<[ "chunk_index" := PInt (Z.of_nat i) ]>
                     (answer_of_outcome (model_name self)
                        (responses (List.length calls))))
                  (calls ++ [qa_request self question chunk])) as [H1 H2].
      split; [exact H1|]. intros d Hd. rewrite (H2 d Hd).
      now rewrite <- app_assoc.
    + destruct (IH (S i) best_answer
                  (calls ++ [qa_request self question chunk])) as [H1 H2].
      split; [exact H1|]. intros d Hd. rewrite (H2 d Hd).
      now rewrite <- app_assoc.
    + split; [reflexivity|]. intros d Hd. discriminate.
Qed.

Lemma truthy_nonempty (s : string) : s <> "" -> PyStr.truthy s = true.
Proof. destruct s; [congruence | reflexivity]. Qed.

Lemma chunk_results_shape (calls : list request) (n : nat) :
  Forall well_shaped (chunk_results responses self calls n).
Proof.
  unfold chunk_results. apply Forall_map, Forall_forall.
  intros i _. apply answer_of_outcome_shape.
Qed.

(** [ask_question_with_chunking] on a text that is not empty. *)
Lemma chunking_run (calls : list request) :
  pdf_text self <> "" ->
  let run := ask_question_with_chunking responses self question calls in
  let o := select 0 (chunk_results responses self calls
                       (List.length (chunks_of self))) sentinel in
  fst run = o
  /\ (forall d, o = Ok d ->
      snd run = calls ++ map (qa_request self question) (chunks_of self))
  /\ select_post 0 (chunk_results responses self calls
                      (List.length (chunks_of self))) sentinel 0 o.
Proof.
  intros Hne. cbn zeta. unfold ask_question_with_chunking.
  rewrite truthy_nonempty by exact Hne. simpl negb. cbv iota.
  destruct (search_run (chunks_of self)
              (chunk_text_nonempty_chunks _ _) 0%nat sentinel calls)
    as [H1 H2].
  split; [exact H1|]. split; [exact H2|].
  apply select_spec; [apply chunk_results_shape | apply best_score_sentinel].
Qed.

End RunFacts.

(** ** The answer of [ask_question_with_chunking] *)

Section ChunkingFacts.

Import QA.

Variable responses : nat -> post_outcome.
Variable self : PDFQuestionAnswering.
Variable question : string.
Variable calls : list request.

Local Abbreviation n := (List.length (chunks_of self)).
Local Abbreviation result := (chunk_result responses self calls).
Local Abbreviation run :=
  (ask_question_with_chunking responses self question calls).

Lemma chunks_nonempty_text : (0 < n)%nat -> pdf_text self <> "".
Proof.
  intros Hn E. unfold chunks_of in Hn. rewrite E in Hn.
  simpl in Hn. lia.
Qed.

(** The answer, chunk by chunk: [select_post] read on the indices of the
    chunks. *)
Lemma chunking_cases :
  pdf_text self <> "" ->
  match fst run with
  | Ok d =>
      snd run = calls ++ map (qa_request self question) (chunks_of self)
      /\ exists b',
          best_score d b'
          /\ (0 <= b')%Q
          /\ (forall k, (k < n)%nat -> succeeded (result k) ->
               exists q, score_of (result k) = Some q /\ (q <= b')%Q)
          /\ ((d = sentinel /\ b' = 0%Q)
              \/ exists k,
                  (k < n)%nat
                  /\ succeeded (result k)
                  /\ score_of (result k) = Some b'
                  /\ (0 < b')%Q
                  /\ d = <[ "chunk_index" := PInt (Z.of_nat k) ]> (result k)
                  /\ forall j qj, (j < k)%nat -> succeeded (result j) ->
                       score_of (result j) = Some qj -> (qj < b')%Q)
  | Raise e =>
      e = TypeError
      /\ exists k, (k < n)%nat /\ succeeded (result k)
                   /\ score_of (result k) = None
  end.
Proof.
  intros Hne.
  destruct (chunking_run responses self question calls Hne)
    as (Hfst & Hsnd & Hpost).
  rewrite Hfst.
  destruct (select 0 (chunk_results responses self calls n) sentinel)
    as [d | e]; simpl in Hpost.
  - split; [now apply (Hsnd d)|].
    destruct Hpost as (b' & Hd & Hb' & Hdom & Hcase).
    exists b'. split; [exact Hd|]. split; [exact Hb'|]. split.
    + intros k Hk Hs. apply (Hdom k); [|exact Hs].
      now apply chunk_results_lookup.
    + destruct Hcase as [Hsame | (k & r & Hk & Hs & Hq & Hlt & -> & Hfirst)];
        [now left|].
      apply chunk_results_lookup in Hk as [Hk ->].
      right. exists k. repeat (split; [assumption|]).
      split; [reflexivity|].
      intros j qj Hj Hsj Hqj.
      apply (Hfirst j (result j) qj); [exact Hj | | exact Hsj | exact Hqj].
      apply chunk_results_lookup. split; [lia | reflexivity].
  - destruct Hpost as (He & k & r & Hk & Hs & Hq).
    apply chunk_results_lookup in Hk as [Hk ->].
    split; [exact He|]. now exists k.
Qed.

(** When every successful chunk carries a number, nothing is raised. *)
Lemma chunking_returns :
  pdf_text self <> "" ->
  (forall k, (k < n)%nat -> succeeded (result k) ->
     is_Some (score_of (result k))) ->
  exists d, run = (Ok d, calls ++ map (qa_request self question)
                                      (chunks_of self)).
Proof.
  intros Hne Hnum. pose proof (chunking_cases Hne) as H.
  destruct run as [[d | e] calls'] eqn:E; simpl in H.
  - destruct H as [-> _]. now exists d.
  - destruct H as (_ & k & Hk & Hs & Hq).
    destruct (Hnum k Hk Hs) as [q Hq']. congruence.
Qed.

(** The answer when some successful chunk scores above 0: the first
    chunk that reaches the highest score, marked with its index. *)
Lemma chunking_first_maximum :
  (forall k, (k < n)%nat -> succeeded (result k) ->
     is_Some (score_of (result k))) ->
  (exists i q, (i < n)%nat /\ succeeded (result i)
               /\ score_of (result i) = Some q /\ (0 < q)%Q) ->
  exists m b,
    (m < n)%nat
    /\ succeeded (result m)
    /\ score_of (result m) = Some b
    /\ (0 < b)%Q
    /\ (forall k, (k < n)%nat -> succeeded (result k) ->
          exists q, score_of (result k) = Some q /\ (q <= b)%Q)
    /\ (forall j qj, (j < m)%nat -> succeeded (result j) ->
          score_of (result j) = Some qj -> (qj < b)%Q)
    /\ run = (Ok (<[ "chunk_index" := PInt (Z.of_nat m) ]> (result m)),
              calls ++ map (qa_request self question) (chunks_of self)).
Proof.
  intros Hnum (i & q & Hi & Hsi & Hqi & Hpos).
  assert (Hne : pdf_text self <> "") by (apply chunks_nonempty_text; lia).
  destruct (chunking_returns Hne Hnum) as [d Hrun].
  pose proof (chunking_cases Hne) as H. rewrite Hrun in H. simpl in H.
  destruct H as (_ & b' & Hd & Hb' & Hdom & Hcase).
  destruct Hcase as [[-> ->] | (k & Hk & Hs & Hq & Hlt & -> & Hfirst)].
  - destruct (Hdom i Hi Hsi) as (q' & Hq' & Hle).
    rewrite Hqi in Hq'. injection Hq' as <-. lra.
  - exists k, b'. repeat (split; [assumption|]). exact Hrun.
Qed.

End ChunkingFacts.

(** C3, amended. When every chunk of the document scores successfully
    and some chunk scores above 0, [ask_question_with_chunking] returns a
    candidate whose score is the maximum over all chunks, marked with the
    index of the chunk that produced it, after one call per chunk. In
    particular, for a document of 3 chunks that score 0.2, 0.9 and 0.5 the
    answer is the candidate of the chunk of index 1. *)
Theorem best_answer_is_the_maximum (responses : nat -> post_outcome)
    (self : QA.PDFQuestionAnswering) (question : string)
    (calls : list request) :
  let n := List.length (QA.chunks_of self) in
  let result := QA.chunk_result responses self calls in
  let run := QA.ask_question_with_chunking responses self question calls in
  let sent :=
    calls ++ map (QA.qa_request self question) (QA.chunks_of self) in
  ((forall k, (k < n)%nat ->
      QA.succeeded (result k) /\ is_Some (QA.score_of (result k))) ->
   (exists i q, (i < n)%nat /\ QA.score_of (result i) = Some q /\ (0 < q)%Q) ->
   exists m b,
     (m < n)%nat
     /\ QA.score_of (result m) = Some b
     /\ (forall k q, (k < n)%nat -> QA.score_of (result k) = Some q ->
           (q <= b)%Q)
     /\ run = (Ok (<[ "chunk_index" := PInt (Z.of_nat m) ]> (result m)), sent))
  /\ (n = 3%nat ->
      (forall k, (k < 3)%nat -> QA.succeeded (result k)) ->
      (exists q0 q1 q2,
          QA.score_of (result 0%nat) = Some q0 /\ (q0 == 0.2)%Q
          /\ QA.score_of (result 1%nat) = Some q1 /\ (q1 == 0.9)%Q
          /\ QA.score_of (result 2%nat) = Some q2 /\ (q2 == 0.5)%Q) ->
      run = (Ok (<[ "chunk_index" := PInt 1 ]> (result 1%nat)), sent)).
Proof.
  cbn zeta.
  assert (General :
    (forall k, (k < List.length (QA.chunks_of self))%nat ->
       QA.succeeded (QA.chunk_result responses self calls k)
       /\ is_Some (QA.score_of (QA.chunk_result responses self calls k))) ->
    (exists i q, (i < List.length (QA.chunks_of self))%nat
                 /\ QA.score_of (QA.chunk_result responses self calls i)
                    = Some q /\ (0 < q)%Q) ->
    exists m b,
      (m < List.length (QA.chunks_of self))%nat
      /\ QA.score_of (QA.chunk_result responses self calls m) = Some b
      /\ (forall k q, (k < List.length (QA.chunks_of self))%nat ->
            QA.score_of (QA.chunk_result responses self calls k) = Some q ->
            (q <= b)%Q)
      /\ (forall j qj, (j < m)%nat ->
            QA.score_of (QA.chunk_result responses self calls j) = Some qj ->
            (qj < b)%Q)
      /\ QA.ask_question_with_chunking responses self question calls
         = (Ok (<[ "chunk_index" := PInt (Z.of_nat m) ]>
                  (QA.chunk_result responses self calls m)),
            calls ++ map (QA.qa_request self question) (QA.chunks_of self))).
  { intros Hall (i & q & Hi & Hq & Hpos).
    destruct (chunking_first_maximum responses self question calls)
      as (m & b & Hm & _ & Hb & _ & Hdom & Hfirst & Hrun).
    - intros k Hk _. now apply Hall.
    - exists i, q. split; [exact Hi|]. split; [now apply Hall|]. now split.
    - exists m, b. split; [exact Hm|]. split; [exact Hb|]. split; [|split].
      + intros k q' Hk Hq'. destruct (Hdom k Hk) as (q'' & Hq'' & Hle);
          [now apply Hall|]. congruence.
      + intros j qj Hj Hqj. apply (Hfirst j qj Hj); [|exact Hqj].
        apply Hall. lia.
      + exact Hrun. }
  split.
  - intros Hall Hpos.
    destruct (General Hall Hpos) as (m & b & Hm & Hb & Hdom & _ & Hrun).
    now exists m, b.
  - intros Hn Hok (q0 & q1 & q2 & H0 & E0 & H1 & E1 & H2 & E2).
    rewrite Hn in General.
    destruct General as (m & b & Hm & Hb & Hdom & Hfirst & Hrun).
    + intros k Hk. split; [now apply Hok|].
      destruct k as [|[|[|k]]]; [eauto | eauto | eauto | lia].
    + exists 1%nat, q1. split; [lia|]. split; [exact H1|]. lra.
    + pose proof (Hdom 1%nat q1 ltac:(lia) H1) as Hle.
      destruct m as [|[|[|m]]]; [| exact Hrun | | lia].
      * rewrite H0 in Hb. injection Hb as <-. lra.
      * rewrite H2 in Hb. injection Hb as <-. lra.
Qed.

(** C4, amended. When two chunks tie for the highest score among the
    successful chunks and that score is above 0, the answer is the
    candidate of the lowest index that reaches this score, so it is never
    the later of the two. In particular, for a document of two chunks that
    both score 0.7 the answer is the candidate of the chunk of index 0. *)
Theorem tie_goes_to_the_lowest_index (responses : nat -> post_outcome)
    (self : QA.PDFQuestionAnswering) (question : string)
    (calls : list request) :
  let n := List.length (QA.chunks_of self) in
  let result := QA.chunk_result responses self calls in
  let run := QA.ask_question_with_chunking responses self question calls in
  let sent :=
    calls ++ map (QA.qa_request self question) (QA.chunks_of self) in
  (forall i j qi qj,
      (i < j)%nat -> (j < n)%nat ->
      QA.succeeded (result i) -> QA.score_of (result i) = Some qi ->
      QA.succeeded (result j) -> QA.score_of (result j) = Some qj ->
      (qi == qj)%Q ->
      (forall k, (k < n)%nat -> QA.succeeded (result k) ->
         exists q, QA.score_of (result k) = Some q /\ (q <= qi)%Q) ->
      (0 < qi)%Q ->
      exists m qm,
        (m <= i)%nat
        /\ QA.succeeded (result m)
        /\ QA.score_of (result m) = Some qm /\ (qm == qi)%Q
        /\ (forall l ql, (l < m)%nat -> QA.succeeded (result l) ->
              QA.score_of (result l) = Some ql -> (ql < qi)%Q)
        /\ run = (Ok (<[ "chunk_index" := PInt (Z.of_nat m) ]> (result m)),
                  sent))
  /\ (n = 2%nat ->
      (exists q0 q1,
          QA.succeeded (result 0%nat)
          /\ QA.score_of (result 0%nat) = Some q0 /\ (q0 == 0.7)%Q
          /\ QA.succeeded (result 1%nat)
          /\ QA.score_of (result 1%nat) = Some q1 /\ (q1 == 0.7)%Q) ->
      run = (Ok (<[ "chunk_index" := PInt 0 ]> (result 0%nat)), sent)).
Proof.
  cbn zeta.
  assert (General : forall i j qi qj,
      (i < j)%nat -> (j < List.length (QA.chunks_of self))%nat ->
      QA.succeeded (QA.chunk_result responses self calls i) ->
      QA.score_of (QA.chunk_result responses self calls i) = Some qi ->
      QA.succeeded (QA.chunk_result responses self calls j) ->
      QA.score_of (QA.chunk_result responses self calls j) = Some qj ->
      (qi == qj)%Q ->
      (forall k, (k < List.length (QA.chunks_of self))%nat ->
         QA.succeeded (QA.chunk_result responses self calls k) ->
         exists q, QA.score_of (QA.chunk_result responses self calls k)
                   = Some q /\ (q <= qi)%Q) ->
      (0 < qi)%Q ->
      exists m qm,
        (m <= i)%nat
        /\ QA.succeeded (QA.chunk_result responses self calls m)
        /\ QA.score_of (QA.chunk_result responses self calls m) = Some qm
        /\ (qm == qi)%Q
        /\ (forall l ql, (l < m)%nat ->
              QA.succeeded (QA.chunk_result responses self calls l) ->
              QA.score_of (QA.chunk_result responses self calls l) = Some ql ->
              (ql < qi)%Q)
        /\ QA.ask_question_with_chunking responses self question calls
           = (Ok (<[ "chunk_index" := PInt (Z.of_nat m) ]>
                    (QA.chunk_result responses self calls m)),
              calls ++ map (QA.qa_request self question)
                           (QA.chunks_of self))).
  { intros i j qi qj Hij Hj Hsi Hqi Hsj Hqj Heq Hmax Hpos.
    destruct (chunking_first_maximum responses self question calls)
      as (m & b & Hm & Hsm & Hb & _ & Hdom & Hfirst & Hrun).
    - intros k Hk Hs. destruct (Hmax k Hk Hs) as (q & Hq & _). eauto.
    - exists i, qi. split; [lia|]. now repeat split.
    - destruct (Hmax m Hm Hsm) as (q & Hq & Hle).
      rewrite Hb in Hq. injection Hq as <-.
      destruct (Hdom i ltac:(lia) Hsi) as (q & Hq & Hge).
      rewrite Hqi in Hq. injection Hq as <-.
      assert (Hbq : (b == qi)%Q) by lra.
      exists m, b. split.
      + destruct (Nat.le_gt_cases m i) as [H | H]; [exact H|].
        pose proof (Hfirst i qi H Hsi Hqi). lra.
      + split; [exact Hsm|]. split; [exact Hb|]. split; [exact Hbq|].
        split; [|exact Hrun].
        intros l ql Hl Hsl Hql. pose proof (Hfirst l ql Hl Hsl Hql). lra. }
  split; [exact General|].
  intros Hn (q0 & q1 & Hs0 & H0 & E0 & Hs1 & H1 & E1).
  destruct (General 0%nat 1%nat q0 q1) as (m & qm & Hm & _ & _ & _ & _ & Hrun);
    try assumption; try lia; try lra.
  - intros k Hk Hs. rewrite Hn in Hk.
    destruct k as [|[|k]]; [exists q0 | exists q1 | lia];
      (split; [assumption | lra]).
  - assert (m = 0%nat) as -> by lia. exact Hrun.
Qed.

Lemma best_answer_is_the_maximum_witness :
  QA.ask_question_with_chunking
    (QA.scripted [QA.scored "Rome" (PFloat 0.2);
                  QA.scored "Paris" (PFloat 0.9);
                  QA.scored "Oslo" (PFloat 0.5)])
    QA.three_chunk_document "Which capital?" []
  = (Ok (<[ "chunk_index" := PInt 1 ]>
           (QA.chunk_result
              (QA.scripted [QA.scored "Rome" (PFloat 0.2);
                            QA.scored "Paris" (PFloat 0.9);
                            QA.scored "Oslo" (PFloat 0.5)])
              QA.three_chunk_document [] 1)),
     [] ++ map (QA.qa_request QA.three_chunk_document "Which capital?")
               (QA.chunks_of QA.three_chunk_document)).
Proof.
  apply (proj2 (best_answer_is_the_maximum
                  (QA.scripted [QA.scored "Rome" (PFloat 0.2);
                                QA.scored "Paris" (PFloat 0.9);
                                QA.scored "Oslo" (PFloat 0.5)])
                  QA.three_chunk_document "Which capital?" [])).
  - vm_compute. reflexivity.
  - intros k Hk. destruct k as [|[|[|k]]]; [reflexivity.. | lia].
  - exists 0.2%Q, 0.9%Q, 0.5%Q. repeat split; reflexivity.
Defined.

(** The answer of the example above, written out. *)
Example three_chunks_answer :
  fst (QA.ask_question_with_chunking
         (QA.scripted [QA.scored "Rome" (PFloat 0.2);
                       QA.scored "Paris" (PFloat 0.9);
                       QA.scored "Oslo" (PFloat 0.5)])
         QA.three_chunk_document "Which capital?" [])
  = Ok {[ "answer" := PStr "Paris"; "score" := PFloat 0.9;
          "start" := PInt 0; "end" := PInt 1; "chunk_index" := PInt 1 ]}.
Proof. vm_compute. reflexivity. Qed.

(** C3 as stated fails when no chunk scores above 0: the only chunk of
    this document scores 0 successfully, and the answer is the sentinel,
    which is no candidate and carries no chunk index. *)
Lemma best_answer_zero_score_counterexample :
  (forall k,
      (k < List.length (QA.chunks_of QA.one_chunk_document))%nat ->
      QA.succeeded
        (QA.chunk_result (QA.scripted [QA.scored "Paris" (PFloat 0)])
           QA.one_chunk_document [] k)
      /\ is_Some
           (QA.score_of
              (QA.chunk_result (QA.scripted [QA.scored "Paris" (PFloat 0)])
                 QA.one_chunk_document [] k)))
  /\ fst (QA.ask_question_with_chunking
            (QA.scripted [QA.scored "Paris" (PFloat 0)])
            QA.one_chunk_document "Which capital?" [])
     = Ok QA.sentinel
  /\ ~ (exists m b,
          (m < List.length (QA.chunks_of QA.one_chunk_document))%nat
          /\ QA.score_of
               (QA.chunk_result (QA.scripted [QA.scored "Paris" (PFloat 0)])
                  QA.one_chunk_document [] m) = Some b
          /\ (forall k q,
                (k < List.length (QA.chunks_of QA.one_chunk_document))%nat ->
                QA.score_of
                  (QA.chunk_result
                     (QA.scripted [QA.scored "Paris" (PFloat 0)])
                     QA.one_chunk_document [] k) = Some q ->
                (q <= b)%Q)
          /\ QA.ask_question_with_chunking
               (QA.scripted [QA.scored "Paris" (PFloat 0)])
               QA.one_chunk_document "Which capital?" []
             = (Ok (<[ "chunk_index" := PInt (Z.of_nat m) ]>
                      (QA.chunk_result
                         (QA.scripted [QA.scored "Paris" (PFloat 0)])
                         QA.one_chunk_document [] m)),
                [] ++ map (QA.qa_request QA.one_chunk_document
                             "Which capital?")
                          (QA.chunks_of QA.one_chunk_document))).
Proof.
  assert (E : fst (QA.ask_question_with_chunking
                     (QA.scripted [QA.scored "Paris" (PFloat 0)])
                     QA.one_chunk_document "Which capital?" [])
              = Ok QA.sentinel) by (vm_compute; reflexivity).
  split; [|split; [exact E|]].
  - intros k Hk. change (k < 1)%nat in Hk.
    destruct k as [|k]; [|lia]. split; [reflexivity|].
    exists 0%Q. reflexivity.
  - intros (m & b & _ & _ & _ & Hrun). rewrite Hrun in E. simpl in E.
    injection E as E.
    apply (f_equal (fun d : dict => d !! "chunk_index")) in E.
    rewrite lookup_insert_eq in E. discriminate E.
Qed.

Lemma tie_goes_to_the_lowest_index_witness :
  QA.ask_question_with_chunking
    (QA.scripted [QA.scored "first" (PFloat 0.7);
                  QA.scored "second" (PFloat 0.7)])
    QA.two_chunk_document "Which one?" []
  = (Ok (<[ "chunk_index" := PInt 0 ]>
           (QA.chunk_result
              (QA.scripted [QA.scored "first" (PFloat 0.7);
                            QA.scored "second" (PFloat 0.7)])
              QA.two_chunk_document [] 0)),
     [] ++ map (QA.qa_request QA.two_chunk_document "Which one?")
               (QA.chunks_of QA.two_chunk_document)).
Proof.
  apply (proj2 (tie_goes_to_the_lowest_index
                  (QA.scripted [QA.scored "first" (PFloat 0.7);
                                QA.scored "second" (PFloat 0.7)])
                  QA.two_chunk_document "Which one?" [])).
  - vm_compute. reflexivity.
  - exists 0.7%Q, 0.7%Q. repeat split; reflexivity.
Defined.

(** The answer of the example above, written out. *)
Example tie_answer :
  fst (QA.ask_question_with_chunking
         (QA.scripted [QA.scored "first" (PFloat 0.7);
                       QA.scored "second" (PFloat 0.7)])
         QA.two_chunk_document "Which one?" [])
  = Ok {[ "answer" := PStr "first"; "score" := PFloat 0.7;
          "start" := PInt 0; "end" := PInt 1; "chunk_index" := PInt 0 ]}.
Proof. vm_compute. reflexivity. Qed.

(** C4 as stated fails when the tie is at a score that is not above 0:
    both chunks of this document score 0, the highest score, and the
    answer is the sentinel, not the candidate of the chunk of index 0. *)
Lemma tie_at_zero_counterexample :
  QA.succeeded
    (QA.chunk_result (QA.scripted [QA.scored "first" (PFloat 0);
                                   QA.scored "second" (PFloat 0)])
       QA.two_chunk_document [] 0)
  /\ QA.succeeded
       (QA.chunk_result (QA.scripted [QA.scored "first" (PFloat 0);
                                      QA.scored "second" (PFloat 0)])
          QA.two_chunk_document [] 1)
  /\ QA.score_of
       (QA.chunk_result (QA.scripted [QA.scored "first" (PFloat 0);
                                      QA.scored "second" (PFloat 0)])
          QA.two_chunk_document [] 0) = Some 0%Q
  /\ QA.score_of
       (QA.chunk_result (QA.scripted [QA.scored "first" (PFloat 0);
                                      QA.scored "second" (PFloat 0)])
          QA.two_chunk_document [] 1) = Some 0%Q
  /\ List.length (QA.chunks_of QA.two_chunk_document) = 2%nat
  /\ fst (QA.ask_question_with_chunking
            (QA.scripted [QA.scored "first" (PFloat 0);
                          QA.scored "second" (PFloat 0)])
            QA.two_chunk_document "Which one?" [])
     = Ok QA.sentinel
  /\ ~ (exists m,
          fst (QA.ask_question_with_chunking
                 (QA.scripted [QA.scored "first" (PFloat 0);
                               QA.scored "second" (PFloat 0)])
                 QA.two_chunk_document "Which one?" [])
          = Ok (<[ "chunk_index" := PInt (Z.of_nat m) ]>
                  (QA.chunk_result
                     (QA.scripted [QA.scored "first" (PFloat 0);
                                   QA.scored "second" (PFloat 0)])
                     QA.two_chunk_document [] m))).
Proof.
  assert (E : fst (QA.ask_question_with_chunking
                     (QA.scripted [QA.scored "first" (PFloat 0);
                                   QA.scored "second" (PFloat 0)])
                     QA.two_chunk_document "Which one?" [])
              = Ok QA.sentinel) by (vm_compute; reflexivity).
  do 4 (split; [reflexivity|]).
  split; [vm_compute; reflexivity|]. split; [exact E|].
  intros (m & Hrun). rewrite Hrun in E. injection E as E.
  apply (f_equal (fun d : dict => d !! "chunk_index")) in E.
  rewrite lookup_insert_eq in E. discriminate E.
Qed.

(** ** Errors and empty documents *)

Section ErrorFacts.

Import PyStr QA.

Lemma select_all_errors (results : list dict) :
  forall (i : nat) (best_answer : dict),
    Forall (fun r => ~ succeeded r) results ->
    select i results best_answer = Ok best_answer.
Proof.
  induction results as [|r rs IH]; intros i best_answer H; [reflexivity|].
  simpl. rewrite improves_error by now apply Forall_inv in H.
  apply IH. now apply Forall_inv_tail in H.
Qed.

Lemma chunk_results_all_errors (responses : nat -> post_outcome)
    (self : PDFQuestionAnswering) (calls : list request) (n : nat) :
  (forall k, (k < n)%nat -> ~ succeeded (chunk_result responses self calls k)) ->
  Forall (fun r => ~ succeeded r) (chunk_results responses self calls n).
Proof.
  intros H. unfold chunk_results. apply Forall_map, Forall_forall.
  intros k Hk. apply H. apply list_elem_of_In, in_seq in Hk. lia.
Qed.

(** With nothing but errors the loop sends every chunk and keeps the
    best answer it started with. *)
Lemma search_all_errors (responses : nat -> post_outcome)
    (self : PDFQuestionAnswering) (question : string)
    (chunks : list string) (i : nat) (best_answer : dict)
    (calls : list request) :
  Forall (fun chunk => chunk <> "") chunks ->
  (forall k, (k < List.length chunks)%nat ->
     ~ succeeded (chunk_result responses self calls k)) ->
  search responses self question i chunks best_answer calls
  = (Ok best_answer, calls ++ map (qa_request self question) chunks).
Proof.
  intros Hne Herr.
  destruct (search_run responses self question chunks Hne i best_answer calls)
    as [H1 H2].
  rewrite select_all_errors in H1, H2 by now apply chunk_results_all_errors.
  specialize (H2 best_answer eq_refl).
  destruct (search responses self question i chunks best_answer calls).
  simpl in *. now subst.
Qed.

Lemma split_scan_pending (acc s : string) :
  acc <> "" -> split_scan acc s <> [].
Proof.
  revert acc. induction s as [|c s IH]; intros acc Hacc; simpl.
  - now rewrite emit_nonempty.
  - destruct (isspace c).
    + now rewrite emit_nonempty.
    + apply IH, append_nonempty_r.
Qed.

Lemma split_starts_with_word (c : ascii) (s : string) :
  isspace c = false -> split (String c s) <> [].
Proof.
  intros Hc. unfold split. simpl. rewrite Hc.
  apply split_scan_pending. discriminate.
Qed.

Lemma lstrip_cases (s : string) :
  lstrip s = "" \/ exists c r, lstrip s = String c r /\ isspace c = false.
Proof.
  induction s as [|c s IH]; [now left|].
  simpl. destruct (isspace c) eqn:Hc; [exact IH|].
  right. now exists c, s.
Qed.

Lemma rstrip_keeps_head (c : ascii) (s : string) :
  isspace c = false -> exists r, rstrip (String c s) = String c r.
Proof.
  intros Hc. simpl. destruct (rstrip s) as [|c' r'].
  - rewrite Hc. now exists "".
  - now exists (String c' r').
Qed.

(** A stripped text that is not empty starts with a word. *)
Lemma strip_split_nonempty (s : string) :
  strip s <> "" -> split (strip s) <> [].
Proof.
  unfold strip. intros Hne.
  destruct (lstrip_cases s) as [E | (c & r & E & Hc)]; rewrite E in *.
  - now simpl in Hne.
  - destruct (rstrip_keeps_head c r Hc) as [r' ->].
    now apply split_starts_with_word.
Qed.

(** [extract_text_from_pdf] stores a stripped text. *)
Lemma extract_text_from_pdf_stores_stripped (self : PDFQuestionAnswering)
    (pages : list string) :
  exists text,
    pdf_text (snd (extract_text_from_pdf self (Some pages))) = strip text.
Proof. eexists. reflexivity. Qed.

End ErrorFacts.

(** C5. For every document and every script of replies: a result with an
    ["error"] key never improves on the best answer, whatever that best
    is, and the loop goes on with the next chunk, the best answer
    unchanged and the call logged; when every chunk returns an error the
    loop has sent every chunk and returns the best answer it started
    with, so that [ask_question_with_chunking], on a text that is not
    empty, returns the sentinel: it has no ["chunk_index"] key and no
    ["error"] key. *)
Theorem errors_are_skipped (responses : nat -> post_outcome)
    (self : QA.PDFQuestionAnswering) (question : string) :
  (forall result best_answer : dict,
      ~ QA.succeeded result -> QA.improves result best_answer = Ok false)
  /\ (forall (i : nat) (chunk : string) (rest : list string)
             (best_answer : dict) (calls : list request),
        chunk <> "" ->
        ~ QA.succeeded (QA.chunk_result responses self calls 0) ->
        QA.search responses self question i (chunk :: rest) best_answer calls
        = QA.search responses self question (S i) rest best_answer
            (calls ++ [QA.qa_request self question chunk]))
  /\ (forall (i : nat) (chunks : list string) (best_answer : dict)
             (calls : list request),
        Forall (fun chunk => chunk <> "") chunks ->
        (forall k, (k < List.length chunks)%nat ->
           ~ QA.succeeded (QA.chunk_result responses self calls k)) ->
        QA.search responses self question i chunks best_answer calls
        = (Ok best_answer,
           calls ++ map (QA.qa_request self question) chunks))
  /\ (forall calls : list request,
        QA.pdf_text self <> "" ->
        (forall k, (k < List.length (QA.chunks_of self))%nat ->
           ~ QA.succeeded (QA.chunk_result responses self calls k)) ->
        QA.ask_question_with_chunking responses self question calls
        = (Ok QA.sentinel,
           calls ++ map (QA.qa_request self question) (QA.chunks_of self)))
  /\ QA.sentinel
     = {[ "answer" := PStr "No answer found"; "score" := PInt 0 ]}
  /\ QA.sentinel !! "chunk_index" = None
  /\ QA.succeeded QA.sentinel.
Proof.
  split; [exact improves_error|].
  split.
  { intros i chunk rest best_answer calls Hne Herr.
    simpl QA.search. unfold bind, lift.
    rewrite ask_question_chunk by exact Hne.
    unfold QA.chunk_result in Herr. rewrite Nat.add_0_r in Herr.
    now rewrite improves_error. }
  split.
  { intros i chunks best_answer calls. apply search_all_errors. }
  split.
  { intros calls Hne Herr. unfold QA.ask_question_with_chunking.
    rewrite truthy_nonempty by exact Hne. simpl negb. cbv iota.
    apply search_all_errors; [|exact Herr].
    apply chunk_text_nonempty_chunks. }
  repeat split.
Qed.

Lemma errors_are_skipped_witness :
  QA.ask_question_with_chunking
    (QA.scripted [QA.failed 404; PostRaised "timed out"])
    QA.two_chunk_document "Which one?" []
  = (Ok QA.sentinel,
     [] ++ map (QA.qa_request QA.two_chunk_document "Which one?")
               (QA.chunks_of QA.two_chunk_document)).
Proof.
  apply (proj1 (proj2 (proj2 (proj2
           (errors_are_skipped
              (QA.scripted [QA.failed 404; PostRaised "timed out"])
              QA.two_chunk_document "Which one?"))))).
  - vm_compute. discriminate.
  - intros k Hk. change (k < 2)%nat in Hk.
    destruct k as [|[|k]]; [| | lia]; intros H; vm_compute in H;
      discriminate H.
Defined.

(** The guard reads the text, not the chunks: on a text of whitespace
    assigned to the attribute directly, which no method of the class
    stores, no chunk is processed and no call is made, and the answer is
    the sentinel. *)
Lemma blank_text_passes_the_guard :
  QA.chunks_of QA.blank_document = []
  /\ QA.ask_question_with_chunking (QA.scripted [])
       QA.blank_document "Which capital?" []
     = (Ok QA.sentinel, [])
  /\ QA.ask_question_with_chunking (QA.scripted [])
       QA.blank_document "Which capital?" []
     <> (Ok QA.no_pdf_text, []).
Proof.
  split; [reflexivity|]. split; [reflexivity|].
  intros H. vm_compute in H. discriminate H.
Qed.

(** What the guard does, on any text. When the text of the document is
    empty, [ask_question_with_chunking] returns the "No PDF text
    available" error signal and makes no call. When the text is not empty
    and no chunk is processed, it makes no call either and returns the
    sentinel answer. On a stripped text no chunk is processed only when
    the text is empty, and the error signal is returned. *)
Lemma empty_text_is_reported (responses : nat -> post_outcome)
    (self : QA.PDFQuestionAnswering) (question : string)
    (calls : list request) :
  (QA.pdf_text self = "" ->
   QA.ask_question_with_chunking responses self question calls
   = (Ok QA.no_pdf_text, calls))
  /\ (QA.pdf_text self <> "" -> QA.chunks_of self = [] ->
      QA.ask_question_with_chunking responses self question calls
      = (Ok QA.sentinel, calls))
  /\ ((exists text, QA.pdf_text self = PyStr.strip text) ->
      QA.chunks_of self = [] ->
      QA.pdf_text self = ""
      /\ QA.ask_question_with_chunking responses self question calls
         = (Ok QA.no_pdf_text, calls))
  /\ QA.no_pdf_text
     = {[ "error" := PStr "No PDF text available. Please load a PDF first." ]}.
Proof.
  assert (Hempty : QA.pdf_text self = "" ->
            QA.ask_question_with_chunking responses self question calls
            = (Ok QA.no_pdf_text, calls)).
  { intros E. unfold QA.ask_question_with_chunking. now rewrite E. }
  split; [exact Hempty|]. split; [|split; [|reflexivity]].
  - intros Hne Hnil. unfold QA.ask_question_with_chunking.
    rewrite truthy_nonempty by exact Hne. simpl negb. cbv iota.
    unfold QA.chunks_of in Hnil. now rewrite Hnil.
  - intros [text Htext] Hnil.
    assert (E : QA.pdf_text self = "").
    { destruct (string_dec (QA.pdf_text self) "") as [E | Hne]; [exact E|].
      exfalso. unfold QA.chunks_of in Hnil.
      apply chunk_text_nil_iff in Hnil. rewrite Htext in Hnil, Hne.
      now apply (strip_split_nonempty text). }
    split; [exact E | now apply Hempty].
Qed.

Lemma empty_text_is_reported_witness :
  QA.ask_question_with_chunking (QA.scripted [QA.scored "Paris" (PFloat 0.9)])
    (QA.new "token" "deepset/roberta-base-squad2") "Which capital?" []
  = (Ok QA.no_pdf_text, []).
Proof.
  apply (proj1 (empty_text_is_reported
                  (QA.scripted [QA.scored "Paris" (PFloat 0.9)])
                  (QA.new "token" "deepset/roberta-base-squad2")
                  "Which capital?" [])).
  reflexivity.
Defined.

(** The text of an object that the class built is stripped. *)
Lemma reachable_stripped (self : QA.PDFQuestionAnswering) :
  QA.reachable self -> exists text, QA.pdf_text self = PyStr.strip text.
Proof.
  induction 1 as [token model | self model _ IH | self pages _ IH].
  - now exists "".
  - exact IH.
  - destruct pages as [pages|]; [|exact IH]. eexists. reflexivity.
Qed.

(** C6. For every state of the document that the class can build
    ([__init__], then any [change_model] and [extract_text_from_pdf]):
    if no chunk is processed or the text is empty,
    [ask_question_with_chunking] returns the "No PDF text available"
    error signal and makes no call to the scorer; on such a state no
    chunk is processed exactly when the text is empty. *)
Theorem no_text_is_reported (responses : nat -> post_outcome)
    (self : QA.PDFQuestionAnswering) (question : string)
    (calls : list request) :
  QA.reachable self ->
  QA.chunks_of self = [] \/ QA.pdf_text self = "" ->
  QA.ask_question_with_chunking responses self question calls
  = (Ok {[ "error"
           := PStr "No PDF text available. Please load a PDF first." ]},
     calls)
  /\ (QA.chunks_of self = [] <-> QA.pdf_text self = "").
Proof.
  intros Hreach Hnone.
  pose proof (reachable_stripped self Hreach) as Hstrip.
  destruct (empty_text_is_reported responses self question calls)
    as (Hempty & _ & Hstripped & _).
  assert (Hiff : QA.chunks_of self = [] <-> QA.pdf_text self = "").
  { split.
    - intros Hnil. now destruct (Hstripped Hstrip Hnil).
    - intros E. unfold QA.chunks_of. now rewrite E. }
  split; [|exact Hiff].
  apply Hempty. destruct Hnone as [H | H]; [now apply Hiff | exact H].
Qed.

Lemma no_text_is_reported_witness :
  QA.ask_question_with_chunking (QA.scripted [QA.scored "Paris" (PFloat 0.9)])
    (QA.change_model
       (snd (QA.extract_text_from_pdf (QA.new "token" "gpt2")
               (Some [" "; ""; "	 "])))
       "deepset/roberta-base-squad2")
    "Which capital?" []
  = (Ok {[ "error"
           := PStr "No PDF text available. Please load a PDF first." ]},
     []).
Proof.
  apply (proj1 (no_text_is_reported
                  (QA.scripted [QA.scored "Paris" (PFloat 0.9)])
                  (QA.change_model
                     (snd (QA.extract_text_from_pdf (QA.new "token" "gpt2")
                             (Some [" "; ""; "	 "])))
                     "deepset/roberta-base-squad2")
                  "Which capital?" []
                  (QA.reachable_change_model _ _
                     (QA.reachable_extract _ _
                        (QA.reachable_new "token" "gpt2")))
                  (or_introl eq_refl))).
Defined.

(** C7. For every request to [/process] in which the model or the prompt
    is missing (absent from the form, or empty), the handler replies at
    once with status 400 and the message "Model and prompt are
    required.", and makes no call to the scorer: the log of calls is
    unchanged. *)
Theorem process_rejects_missing_input (responses : nat -> post_outcome)
    (request : App.flask_request) (calls : list Http.request) :
  App.missing (App.form request !! "hf_model")
  \/ App.missing (App.form request !! "prompt") ->
  App.process responses request calls = (Ok App.rejection, calls)
  /\ App.status App.rejection = 400
  /\ App.body App.rejection
     = {[ "status" := PStr "error";
          "message" := PStr "Model and prompt are required." ]}.
Proof.
  intros H. split; [|split; reflexivity].
  unfold App.process, App.missing in *.
  destruct H as [H | H]; rewrite H; simpl; [reflexivity|].
  now rewrite orb_true_r.
Qed.

Lemma process_rejects_missing_input_witness :
  App.process (QA.scripted [QA.scored "Paris" (PFloat 0.9)])
    App.request_without_model []
  = (Ok App.rejection, [])
  /\ App.status App.rejection = 400
  /\ App.body App.rejection
     = {[ "status" := PStr "error";
          "message" := PStr "Model and prompt are required." ]}.
Proof.
  apply (process_rejects_missing_input
           (QA.scripted [QA.scored "Paris" (PFloat 0.9)])
           App.request_without_model []).
  left. reflexivity.
Defined.

(** The two rejected requests of [test_app.py], and a complete request,
    which does reach the scorer. *)
Example process_missing_prompt :
  App.process (QA.scripted [QA.scored "Paris" (PFloat 0.9)])
    App.request_without_prompt []
  = (Ok App.rejection, []).
Proof. reflexivity. Qed.

Example process_valid_request :
  map Http.url
      (snd (App.process (QA.scripted [QA.failed 401]) App.valid_request []))
  = ["https://api-inference.huggingface.co/models/bert-base-uncased"].
Proof. vm_compute. reflexivity. Qed.

(** ** The score and the chunk index of the answer *)

Section AnswerFacts.

Import QA.

Lemma not_above_zero_keeps_sentinel (result : dict) (q : Q) :
  succeeded result -> score_of result = Some q -> (q <= 0)%Q ->
  improves result sentinel = Ok false.
Proof.
  intros Hs Hq Hle.
  rewrite (improves_succeeded result sentinel 0 Hs best_score_sentinel), Hq.
  apply Qle_bool_iff in Hle. now rewrite Hle.
Qed.

(** A reply without a ["score"] counts as a score of 0. *)
Lemma missing_score_is_zero (model body : string) (reply : dict) :
  reply !! "score" = None ->
  let result :=
    answer_of_outcome model
      (Responded (mk_response 200 body (JsonValue (PDict reply)))) in
  succeeded result /\ score_of result = Some 0%Q.
Proof.
  intros Hmiss. cbn zeta. unfold answer_of_outcome. simpl.
  split; [reflexivity|].
  unfold score_of, get at 1.
  assert (E : ({[ "answer" := get reply "answer" (PStr "No answer found");
                  "score" := get reply "score" (PInt 0);
                  "start" := get reply "start" (PInt 0);
                  "end" := get reply "end" (PInt 0) ]} : dict) !! "score"
              = Some (get reply "score" (PInt 0))) by reflexivity.
  rewrite E. unfold get. now rewrite Hmiss.
Qed.

End AnswerFacts.

(** C9. For every document whose text is not empty and every script of
    replies: [ask_question_with_chunking] returns a dict after one call
    per chunk when the score of every successful chunk is a number, and
    raises only a [TypeError], on a successful chunk whose score is not a
    number; the dict it returns has a score of at least 0, and it has the
    ["chunk_index"] key exactly when some successful chunk scored above
    0, being the sentinel when it has not. So a successful result whose score is 0 or less, or
    absent from the reply, never replaces the sentinel, and when no
    successful chunk scores above 0 the answer is "No answer found" with
    no chunk index. *)
Theorem answer_score_and_chunk_index (responses : nat -> post_outcome)
    (self : QA.PDFQuestionAnswering) (question : string)
    (calls : list request) :
  QA.pdf_text self <> "" ->
  let n := List.length (QA.chunks_of self) in
  let result := QA.chunk_result responses self calls in
  let run := QA.ask_question_with_chunking responses self question calls in
  ((forall k, (k < n)%nat -> QA.succeeded (result k) ->
      is_Some (QA.score_of (result k))) ->
   exists d,
     run = (Ok d,
            calls ++ map (QA.qa_request self question) (QA.chunks_of self)))
  /\ match fst run with
  | Ok d =>
      (exists q, QA.best_score d q /\ (0 <= q)%Q)
      /\ (is_Some (d !! "chunk_index") <->
          exists k q, (k < n)%nat /\ QA.succeeded (result k)
                      /\ QA.score_of (result k) = Some q /\ (0 < q)%Q)
      /\ (d !! "chunk_index" = None -> d = QA.sentinel)
  | Raise e =>
      e = TypeError
      /\ exists k, (k < n)%nat /\ QA.succeeded (result k)
                   /\ QA.score_of (result k) = None
  end
  /\ (forall (r : dict) (q : Q),
        QA.succeeded r -> QA.score_of r = Some q -> (q <= 0)%Q ->
        QA.improves r QA.sentinel = Ok false)
  /\ (forall (body : string) (reply : dict),
        reply !! "score" = None ->
        QA.score_of
          (QA.answer_of_outcome (QA.model_name self)
             (Responded (mk_response 200 body (JsonValue (PDict reply)))))
        = Some 0%Q)
  /\ ((forall k, (k < n)%nat -> QA.succeeded (result k) ->
         exists q, QA.score_of (result k) = Some q /\ (q <= 0)%Q) ->
      run = (Ok QA.sentinel,
             calls ++ map (QA.qa_request self question) (QA.chunks_of self))
      /\ QA.sentinel !! "answer" = Some (PStr "No answer found")
      /\ QA.sentinel !! "chunk_index" = None).
Proof.
  intros Hne. cbn zeta.
  pose proof (chunking_cases responses self question calls Hne) as Hcases.
  split; [now apply chunking_returns|].
  split; [|split; [exact not_above_zero_keeps_sentinel|split]].
  - destruct (fst (QA.ask_question_with_chunking responses self question
                     calls)) as [d | e]; [|exact Hcases].
    destruct Hcases as (_ & b' & Hd & Hb' & Hdom & Hcase).
    split; [now exists b'|]. split; [split|].
    + intros Hsome.
      destruct Hcase as [[-> _] | (k & Hk & Hs & Hq & Hlt & _)].
      * destruct Hsome as [v Hv]. discriminate Hv.
      * now exists k, b'.
    + intros (k & q & Hk & Hs & Hq & Hpos).
      destruct Hcase as [[_ ->] | (k' & _ & _ & _ & _ & -> & _)].
      * destruct (Hdom k Hk Hs) as (q' & Hq' & Hle).
        rewrite Hq in Hq'. injection Hq' as <-. lra.
      * rewrite lookup_insert_eq. eauto.
    + intros Hnone.
      destruct Hcase as [[-> _] | (k' & _ & _ & _ & _ & -> & _)];
        [reflexivity|].
      rewrite lookup_insert_eq in Hnone. discriminate Hnone.
  - intros body reply Hmiss.
    now apply (missing_score_is_zero (QA.model_name self) body reply).
  - intros Hlow. split; [|split; reflexivity].
    destruct (chunking_returns responses self question calls Hne)
      as [d Hrun].
    { intros k Hk Hs. destruct (Hlow k Hk Hs) as (q & Hq & _). eauto. }
    rewrite Hrun in Hcases. simpl in Hcases.
    destruct Hcases as (_ & b' & _ & _ & _ & Hcase).
    destruct Hcase as [[-> _] | (k & Hk & Hs & Hq & Hlt & _)];
      [exact Hrun|].
    destruct (Hlow k Hk Hs) as (q & Hq' & Hle).
    rewrite Hq in Hq'. injection Hq' as <-. lra.
Qed.

Lemma answer_score_and_chunk_index_witness :
  QA.ask_question_with_chunking (QA.scripted [QA.scored "Paris" (PFloat 0)])
    QA.one_chunk_document "Which capital?" []
  = (Ok QA.sentinel,
     [] ++ map (QA.qa_request QA.one_chunk_document "Which capital?")
               (QA.chunks_of QA.one_chunk_document))
  /\ QA.sentinel !! "answer" = Some (PStr "No answer found")
  /\ QA.sentinel !! "chunk_index" = None.
Proof.
  apply (proj2 (proj2 (proj2 (proj2
           (answer_score_and_chunk_index
              (QA.scripted [QA.scored "Paris" (PFloat 0)])
              QA.one_chunk_document "Which capital?" []
              ltac:(vm_compute; discriminate)))))).
  intros k Hk _. change (k < 1)%nat in Hk.
  destruct k as [|k]; [|lia].
  exists 0%Q. split; [reflexivity | vm_compute; discriminate].
Defined.

(** A score that is not a number stops the search with a [TypeError]. *)
Example string_score_raises :
  QA.ask_question_with_chunking
    (QA.scripted [QA.scored "Paris" (PStr "high")])
    QA.one_chunk_document "Which capital?" []
  = (Raise TypeError,
     [QA.qa_request QA.one_chunk_document "Which capital?" "hello world"]).
Proof. vm_compute. reflexivity. Qed.

(** * Further properties *)

(** ** More on the chunker *)

Section ChunkerMore.

Import PyStr Chunker.

Variable max_length : Z.

Lemma split_scan_all_space (s : string) :
  split s = [] <-> all_space s = true.
Proof.
  unfold split. induction s as [|c s IH]; simpl; [tauto|].
  destruct (isspace c) eqn:Hc; simpl; [exact IH|].
  split; [|discriminate]. intros H. exfalso.
  now apply (split_scan_pending ("" +:+ String c "") s).
Qed.

Lemma lookup_map_join (gs : list (list string)) (i : nat) (c : string) :
  map join gs !! i = Some c -> exists g, gs !! i = Some g /\ c = join g.
Proof.
  change (map join gs) with (join <$> gs). rewrite list_lookup_fmap.
  destruct (gs !! i) as [g|]; [|discriminate].
  simpl. intros [= <-]. now exists g.
Qed.

Lemma length_concat_nonempty {A} (ls : list (list A)) :
  Forall (fun l => l <> []) ls ->
  (List.length ls <= List.length (concat ls))%nat.
Proof.
  induction 1 as [|l ls Hl _ IH]; [reflexivity|].
  simpl. rewrite length_app. destruct l; [congruence|]. simpl. lia.
Qed.

(** *** Every word in a chunk of its own *)

Lemma gflush_snoc (gs : list (list string)) (cur : list string)
    (w : string) :
  gflush (gflush gs cur) [w] = gflush gs cur ++ [[w]].
Proof. reflexivity. Qed.

Lemma foldl_gstep_singletons (words : list string) :
  max_length <= 1 -> Forall is_word words ->
  forall st : gstate,
    0 <= glength st ->
    let st' := foldl (gstep max_length) st words in
    gflush (groups st') (gcurrent st')
    = gflush (groups st) (gcurrent st) ++ map (fun w => [w]) words.
Proof.
  intros HL. induction 1 as [|w ws Hw _ IH]; intros st Hpos; simpl.
  - now rewrite app_nil_r.
  - apply is_word_len in Hw.
    assert (E : gstep max_length st w
                = mk_gstate (gflush (groups st) (gcurrent st)) [w] (len w)).
    { unfold gstep.
      destruct (Z.leb_spec (glength st + len w + 1) max_length);
        [lia | reflexivity]. }
    rewrite E, IH by (simpl; lia). simpl.
    now rewrite <- app_assoc.
Qed.

(** *** A text that fits one chunk *)

Lemma len_join_app_le (l r : list string) :
  len (join l) <= len (join (l ++ r)).
Proof.
  induction r as [|x r IH] using rev_ind; [now rewrite app_nil_r|].
  rewrite app_assoc.
  destruct (l ++ r) as [|y t] eqn:E.
  - apply app_eq_nil in E as [-> ->]. simpl.
    change (join []) with "". rewrite join_single.
    pose proof (len_nonneg x). unfold len at 1. simpl. lia.
  - rewrite len_join_snoc by discriminate.
    pose proof (len_nonneg x). lia.
Qed.

Lemma foldl_gstep_fits (words : list string) :
  forall cur : list string,
    len (join (cur ++ words)) + 1 <= max_length ->
    foldl (gstep max_length)
          (mk_gstate [] cur
             (match cur with [] => 0 | _ => len (join cur) + 1 end))
          words
    = mk_gstate [] (cur ++ words)
        (match cur ++ words with
         | [] => 0
         | _ => len (join (cur ++ words)) + 1
         end).
Proof.
  induction words as [|w ws IH]; intros cur Hfit; simpl.
  - now rewrite app_nil_r.
  - assert (Hpre : len (join (cur ++ [w])) + 1 <= max_length).
    { pose proof (len_join_app_le (cur ++ [w]) ws) as H.
      rewrite <- app_assoc in H. simpl in H. lia. }
    assert (E : gstep max_length
                  (mk_gstate [] cur
                     (match cur with [] => 0 | _ => len (join cur) + 1 end))
                  w
                = mk_gstate [] (cur ++ [w])
                    (match cur ++ [w] with
                     | [] => 0
                     | _ => len (join (cur ++ [w])) + 1
                     end)).
    { unfold gstep. simpl.
      assert (Hc : (match cur with [] => 0 | _ => len (join cur) + 1 end)
                   + len w + 1 = len (join (cur ++ [w])) + 1).
      { destruct cur as [|x t]; [simpl; rewrite join_single; lia|].
        rewrite len_join_snoc by discriminate. lia. }
      rewrite Hc.
      destruct (Z.leb_spec (len (join (cur ++ [w])) + 1) max_length);
        [|lia].
      f_equal. destruct cur; reflexivity. }
    rewrite E, IH by (rewrite <- app_assoc; exact Hfit).
    now rewrite <- app_assoc.
Qed.

(** *** A chunk is closed only when the next word does not fit *)

Lemma chain_extend_last (w : string) (cur : list string) :
  cur <> [] ->
  forall (gs : list (list string)) (first : bool),
    chain max_length first (gs ++ [cur]) ->
    chain max_length first (gs ++ [cur ++ [w]]).
Proof.
  intros Hcur. induction gs as [|g gs IH]; intros first H; [exact I|].
  destruct gs as [|g1 gs].
  - simpl in *. destruct H as [(w0 & r & -> & Hlt) _].
    split; [|exact I]. now exists w0, (r ++ [w]).
  - simpl in H. destruct H as [Ht Hrest].
    change (chain max_length first (g :: (g1 :: gs) ++ [cur ++ [w]]))
      with (tight max_length first g g1
            /\ chain max_length false ((g1 :: gs) ++ [cur ++ [w]])).
    split; [exact Ht|]. now apply IH.
Qed.

Lemma chain_snoc (g g' : list string) :
  forall (gs : list (list string)) (first : bool),
    chain max_length first (gs ++ [g]) ->
    tight max_length (match gs with [] => first | _ => false end) g g' ->
    chain max_length first ((gs ++ [g]) ++ [g']).
Proof.
  induction gs as [|g0 gs IH]; intros first H Ht.
  - simpl. now split.
  - destruct gs as [|g1 gs].
    + simpl in *. destruct H as [H0 _]. now repeat split.
    + simpl in H. destruct H as [H0 Hrest].
      change (chain max_length first
                (((g0 :: g1 :: gs) ++ [g]) ++ [g']))
        with (tight max_length first g0 g1
              /\ chain max_length false (((g1 :: gs) ++ [g]) ++ [g'])).
      split; [exact H0|]. now apply IH.
Qed.

Lemma gstep_chain_inv (st : gstate) (w : string) :
  chain_inv max_length st -> chain_inv max_length (gstep max_length st w).
Proof.
  unfold chain_inv, gstep. pose proof (len_nonneg w) as Hw.
  intros [(Hc & Hg & Hl) | (Hc & Hchain & Hl)];
    destruct (Z.leb_spec (glength st + len w + 1) max_length) as [Hle | Hgt];
    simpl; right.
  - rewrite Hc, Hg. simpl. split; [discriminate|]. split; [exact I|].
    rewrite join_single. lia.
  - rewrite Hc, Hg. simpl. split; [discriminate|]. split; [exact I|].
    rewrite join_single. lia.
  - split; [now destruct (gcurrent st)|].
    split; [now apply chain_extend_last|].
    rewrite len_join_snoc by exact Hc. lia.
  - split; [discriminate|].
    assert (Hflush : gflush (groups st) (gcurrent st)
                     = groups st ++ [gcurrent st])
      by (unfold gflush; now destruct (gcurrent st)).
    rewrite Hflush. split.
    + apply chain_snoc; [exact Hchain|].
      exists w, []. split; [reflexivity|].
      destruct (groups st); lia.
    + rewrite join_single. destruct (groups st); simpl; lia.
Qed.

Lemma foldl_gstep_chain_inv (words : list string) (st : gstate) :
  chain_inv max_length st ->
  chain_inv max_length (foldl (gstep max_length) st words).
Proof.
  revert st. induction words as [|w ws IH]; intros st H; [exact H|].
  simpl. now apply IH, gstep_chain_inv.
Qed.

Lemma word_groups_chain (words : list string) :
  chain max_length true (word_groups words max_length).
Proof.
  unfold word_groups.
  pose proof (foldl_gstep_chain_inv words ginit) as H.
  specialize (H (or_introl (conj eq_refl (conj eq_refl eq_refl)))).
  destruct H as [(Hc & Hg & _) | (Hc & Hchain & _)].
  - rewrite Hc, Hg. exact I.
  - unfold gflush.
    destruct (gcurrent (foldl (gstep max_length) ginit words));
      [congruence | exact Hchain].
Qed.

Lemma chain_lookup (gs : list (list string)) :
  forall (first : bool) (i : nat) (g g' : list string),
    chain max_length first gs ->
    gs !! i = Some g -> gs !! S i = Some g' ->
    tight max_length (match i with O => first | _ => false end) g g'.
Proof.
  induction gs as [|g0 gs IH]; intros first i g g' H Hi Hi';
    [discriminate|].
  destruct gs as [|g1 gs]; [destruct i; discriminate|].
  simpl in H. destruct H as [Ht Hrest].
  destruct i as [|i].
  - simpl in Hi, Hi'. injection Hi as <-. injection Hi' as <-. exact Ht.
  - simpl in Hi. change ((g1 :: gs) !! S i = Some g') in Hi'.
    pose proof (IH false i g g' Hrest Hi Hi') as H.
    now destruct i.
Qed.

End ChunkerMore.

(** X1. A chunk of [chunk_text] is never empty and is normalised: it is
    the join with single spaces of its own words, which are words of the
    text, so it neither starts nor ends with whitespace. *)
Theorem chunks_are_normalised (text : string) (max_length : Z)
    (chunk : string) :
  In chunk (Chunker.chunk_text text max_length) ->
  chunk <> ""
  /\ PyStr.join (PyStr.split chunk) = chunk
  /\ PyStr.split chunk <> []
  /\ Forall (fun w => In w (PyStr.split text)) (PyStr.split chunk).
Proof.
  intros Hin. rewrite chunk_text_groups in Hin.
  apply in_map_iff in Hin as (g & <- & Hg).
  pose proof (word_groups_words text max_length) as Hw.
  pose proof (word_groups_nonempty max_length (PyStr.split text)) as Hne.
  rewrite Forall_forall in Hw, Hne. apply list_elem_of_In in Hg.
  specialize (Hw g Hg). specialize (Hne g Hg).
  rewrite split_join by exact Hw.
  split; [now apply join_words_nonempty|]. split; [reflexivity|].
  split; [exact Hne|].
  apply Forall_forall. intros w Hin.
  rewrite <- (word_groups_concat max_length (PyStr.split text)).
  apply in_concat. exists g. split; now apply list_elem_of_In.
Qed.

Lemma chunks_are_normalised_witness :
  "b c" <> ""
  /\ PyStr.join (PyStr.split "b c") = "b c"
  /\ PyStr.split "b c" <> []
  /\ Forall (fun w => In w (PyStr.split "a verylongword   b
 c "))
       (PyStr.split "b c").
Proof.
  apply (chunks_are_normalised "a verylongword   b
 c " 4 "b c").
  vm_compute. right. right. left. reflexivity.
Defined.

(** X2. [chunk_text] returns no chunk exactly when every character of
    the text is whitespace (the empty text included), whatever the
    maximum length. *)
Theorem no_chunk_iff_blank (text : string) (max_length : Z) :
  Chunker.chunk_text text max_length = [] <-> PyStr.all_space text = true.
Proof.
  rewrite chunk_text_nil_iff. apply split_scan_all_space.
Qed.

(** X3. With a maximum length of 1 or less (0 and negative values
    included) no word ever joins another: the chunks are the words of the
    text, one per chunk. *)
Theorem tiny_max_length_gives_the_words (text : string) (max_length : Z) :
  max_length <= 1 ->
  Chunker.chunk_text text max_length = PyStr.split text.
Proof.
  intros HL. rewrite chunk_text_groups. unfold Chunker.word_groups.
  rewrite (foldl_gstep_singletons max_length (PyStr.split text) HL
             (split_words text) Chunker.ginit) by (simpl; lia).
  simpl. rewrite map_map. simpl.
  induction (PyStr.split text) as [|w ws IH]; [reflexivity|].
  simpl. now rewrite IH.
Qed.

Lemma tiny_max_length_gives_the_words_witness :
  Chunker.chunk_text "to be or not" 0 = PyStr.split "to be or not".
Proof.
  apply (tiny_max_length_gives_the_words "to be or not" 0).
  vm_compute. discriminate.
Defined.

(** X4. A text with at least one word whose words, joined with single
    spaces, are at most [max_length - 1] characters long is returned as
    one chunk, that join. *)
Theorem short_text_is_one_chunk (text : string) (max_length : Z) :
  PyStr.split text <> [] ->
  PyStr.len (PyStr.join (PyStr.split text)) + 1 <= max_length ->
  Chunker.chunk_text text max_length = [PyStr.join (PyStr.split text)].
Proof.
  intros Hne Hfit. rewrite chunk_text_groups. unfold Chunker.word_groups.
  change Chunker.ginit
    with (Chunker.mk_gstate [] []
            (match @nil string with
             | [] => 0
             | _ => PyStr.len (PyStr.join []) + 1
             end)).
  rewrite foldl_gstep_fits by exact Hfit. simpl.
  destruct (PyStr.split text); [congruence | reflexivity].
Qed.

Lemma short_text_is_one_chunk_witness :
  Chunker.chunk_text "  the quick   brown fox " 20
  = [PyStr.join (PyStr.split "  the quick   brown fox ")].
Proof.
  apply (short_text_is_one_chunk "  the quick   brown fox " 20).
  - vm_compute. discriminate.
  - vm_compute. discriminate.
Defined.

(** X5. A chunk is closed only when the next word does not fit: for two
    consecutive chunks, the earlier one followed by a space and the first
    word of the later one is longer than [max_length], or at least
    [max_length] long when the earlier chunk is the first of the text. *)
Theorem chunk_closed_only_when_full (text : string) (max_length : Z)
    (i : nat) (chunk next word : string) :
  Chunker.chunk_text text max_length !! i = Some chunk ->
  Chunker.chunk_text text max_length !! S i = Some next ->
  hd_error (PyStr.split next) = Some word ->
  max_length
  < PyStr.len chunk + 1 + PyStr.len word
    + (match i with O => 1 | _ => 0 end).
Proof.
  rewrite chunk_text_groups. intros Hi Hi' Hword.
  apply lookup_map_join in Hi as (g & Hg & ->).
  apply lookup_map_join in Hi' as (g' & Hg' & ->).
  pose proof (word_groups_words text max_length) as Hw.
  rewrite Forall_forall in Hw.
  rewrite split_join in Hword
    by (apply Hw, list_elem_of_lookup; eauto).
  destruct (chain_lookup max_length _ true i g g'
              (word_groups_chain max_length (PyStr.split text)) Hg Hg')
    as (w & r & -> & Hlt).
  simpl in Hword. injection Hword as <-.
  destruct i; exact Hlt.
Qed.

Lemma chunk_closed_only_when_full_witness :
  5 < PyStr.len "aaaa" + 1 + PyStr.len "bb" + 1.
Proof.
  apply (chunk_closed_only_when_full "aaaa bb cc" 5 0 "aaaa" "bb cc" "bb");
    reflexivity.
Defined.

(** X6. Chunking depends on the words only: chunking again the chunks
    rejoined with spaces gives the same chunks. *)
Theorem rechunking_is_stable (text : string) (max_length : Z) :
  Chunker.chunk_text (PyStr.join (Chunker.chunk_text text max_length))
                     max_length
  = Chunker.chunk_text text max_length.
Proof.
  assert (E : PyStr.split (PyStr.join (Chunker.chunk_text text max_length))
              = PyStr.split text).
  { rewrite chunk_text_groups, split_join_concat.
    rewrite map_split_join by apply word_groups_words.
    apply word_groups_concat. }
  unfold Chunker.chunk_text at 1. now rewrite E.
Qed.

(** X7. There are never more chunks than words. *)
Theorem chunk_count_at_most_word_count (text : string) (max_length : Z) :
  (List.length (Chunker.chunk_text text max_length)
   <= List.length (PyStr.split text))%nat.
Proof.
  rewrite chunk_text_groups, length_map.
  rewrite <- (word_groups_concat max_length (PyStr.split text)) at 2.
  apply length_concat_nonempty, word_groups_nonempty.
Qed.

(** ** More on the class *)

Section ClassMore.

Import PyStr QA.

Variable responses : nat -> post_outcome.
Variable self : PDFQuestionAnswering.

Lemma split_scan_lstrip (s : string) : split (lstrip s) = split s.
Proof.
  unfold split. induction s as [|c s IH]; [reflexivity|].
  simpl. destruct (isspace c) eqn:Hc; [exact IH|].
  simpl. now rewrite Hc.
Qed.

Lemma split_scan_rstrip (s : string) :
  forall acc, split_scan acc (rstrip s) = split_scan acc s.
Proof.
  induction s as [|c s IH]; intros acc; [reflexivity|].
  simpl rstrip. destruct (rstrip s) as [|c' r] eqn:E.
  - destruct (isspace c) eqn:Hc; simpl; rewrite Hc.
    + rewrite <- IH. simpl. now rewrite app_nil_r.
    + now rewrite <- IH.
  - simpl. destruct (isspace c); now rewrite <- IH.
Qed.

(** Stripping a text does not change its words. *)
Lemma split_strip (s : string) : split (strip s) = split s.
Proof.
  unfold strip, split at 1. rewrite split_scan_rstrip.
  apply split_scan_lstrip.
Qed.

Lemma strip_empty_iff (s : string) : strip s = "" <-> all_space s = true.
Proof.
  rewrite <- split_scan_all_space, <- split_strip. split.
  - now intros ->.
  - intros H. destruct (string_dec (strip s) "") as [E | Hne]; [exact E|].
    exfalso. now apply (strip_split_nonempty s).
Qed.

Lemma chunk_result_shift (calls : list request) (r : request) (j : nat) :
  chunk_result responses self (calls ++ [r]) j
  = chunk_result responses self calls (S j).
Proof.
  unfold chunk_result. rewrite length_app. simpl. f_equal. f_equal. lia.
Qed.

(** A successful chunk without a number stops the loop at once. *)
Lemma search_raises (question : string) (chunks : list string) :
  Forall (fun chunk => chunk <> "") chunks ->
  forall (i : nat) (best_answer : dict) (b : Q) (calls : list request)
         (k : nat),
    best_score best_answer b ->
    (k < List.length chunks)%nat ->
    succeeded (chunk_result responses self calls k) ->
    score_of (chunk_result responses self calls k) = None ->
    (forall j, (j < k)%nat ->
       succeeded (chunk_result responses self calls j) ->
       is_Some (score_of (chunk_result responses self calls j))) ->
    search responses self question i chunks best_answer calls
    = (Raise TypeError,
       calls ++ map (qa_request self question) (take (S k) chunks)).
Proof.
  induction 1 as [|chunk rest Hne _ IH];
    intros i best_answer b calls k Hb Hk Hs Hq Hbefore;
    [simpl in Hk; lia|].
  simpl search. unfold bind, lift.
  rewrite ask_question_chunk by exact Hne.
  assert (E0 : answer_of_outcome (model_name self)
                 (responses (List.length calls))
               = chunk_result responses self calls 0)
    by (unfold chunk_result; now rewrite Nat.add_0_r).
  rewrite E0.
  destruct k as [|k].
  - rewrite (improves_succeeded _ best_answer b Hs Hb), Hq.
    reflexivity.
  - assert (Hrest :
      forall best' b', best_score best' b' ->
        search responses self question (S i) rest best'
               (calls ++ [qa_request self question chunk])
        = (Raise TypeError,
           calls ++ map (qa_request self question)
                        (take (S (S k)) (chunk :: rest)))).
    { intros best' b' Hb'.
      rewrite (IH (S i) best' b' _ k Hb').
      - simpl. now rewrite <- app_assoc.
      - simpl in Hk. lia.
      - now rewrite chunk_result_shift.
      - now rewrite chunk_result_shift.
      - intros j Hj. rewrite chunk_result_shift. apply Hbefore. lia. }
    destruct (chunk_result responses self calls 0 !! "error") eqn:Herr.
    + rewrite improves_error by (unfold succeeded; congruence).
      now apply (Hrest best_answer b).
    + assert (Hs0 : succeeded (chunk_result responses self calls 0))
        by exact Herr.
      rewrite (improves_succeeded _ best_answer b Hs0 Hb).
      destruct (Hbefore 0%nat ltac:(lia) Hs0) as [q Hq0]. rewrite Hq0.
      destruct (Qle_bool q b); simpl.
      * now apply (Hrest best_answer b).
      * apply (Hrest _ q). apply best_score_marked; [|exact Hq0].
        apply (well_shaped_succeeded _ (answer_of_outcome_shape _ _) Hs0).
Qed.

(** Whatever happens, the calls of the loop are the requests of the first
    chunks, in order. *)
Lemma search_calls_prefix (question : string) (chunks : list string) :
  Forall (fun chunk => chunk <> "") chunks ->
  forall (i : nat) (best_answer : dict) (calls : list request),
  exists m,
    (m <= List.length chunks)%nat
    /\ snd (search responses self question i chunks best_answer calls)
       = calls ++ map (qa_request self question) (take m chunks).
Proof.
  induction 1 as [|chunk rest Hne _ IH]; intros i best_answer calls.
  - exists 0%nat. split; [reflexivity|]. simpl. now rewrite app_nil_r.
  - simpl search. unfold bind, lift.
    rewrite ask_question_chunk by exact Hne.
    destruct (improves _ best_answer) as [[|] | e].
    + destruct (IH (S i)
                  (<[ "chunk_index" := PInt (Z.of_nat i) ]>
                     (answer_of_outcome (model_name self)
                        (responses (List.length calls))))
                  (calls ++ [qa_request self question chunk]))
        as (m & Hm & E).
      exists (S m). split; [simpl; lia|]. rewrite E. simpl.
      now rewrite <- app_assoc.
    + destruct (IH (S i) best_answer
                  (calls ++ [qa_request self question chunk]))
        as (m & Hm & E).
      exists (S m). split; [simpl; lia|]. rewrite E. simpl.
      now rewrite <- app_assoc.
    + exists 1%nat. split; [simpl; lia|]. reflexivity.
Qed.

(** The loop over the models: the first one that passes the test. *)
Lemma first_working_found (models : list string) :
  forall (calls : list request) (k : nat) (model : string),
    models !! k = Some model ->
    available (test_outcome responses calls k) = true ->
    (forall j, (j < k)%nat ->
       available (test_outcome responses calls j) = false) ->
    first_working responses self models calls
    = (Ok model,
       calls ++ map (availability_request self) (take (S k) models)).
Proof.
  induction models as [|m ms IH]; intros calls k model Hk Hav Hbefore;
    [discriminate|].
  simpl first_working. unfold bind, test_model_availability, bind,
    requests_post, ret.
  assert (E0 : responses (List.length calls)
               = test_outcome responses calls 0)
    by (unfold test_outcome; now rewrite Nat.add_0_r).
  rewrite E0.
  destruct k as [|k].
  - simpl in Hk. injection Hk as <-. now rewrite Hav.
  - rewrite (Hbefore 0%nat) by lia.
    rewrite (IH _ k model Hk).
    + simpl. now rewrite <- app_assoc.
    + unfold test_outcome in *. rewrite length_app. simpl.
      now replace (List.length calls + 1 + k)%nat
        with (List.length calls + S k)%nat by lia.
    + intros j Hj. specialize (Hbefore (S j) ltac:(lia)).
      unfold test_outcome in *. rewrite length_app. simpl.
      now replace (List.length calls + 1 + j)%nat
        with (List.length calls + S j)%nat by lia.
Qed.

Lemma first_working_none (models : list string) :
  forall calls : list request,
    (forall j, (j < List.length models)%nat ->
       available (test_outcome responses calls j) = false) ->
    first_working responses self models calls
    = (Ok fallback_model, calls ++ map (availability_request self) models).
Proof.
  induction models as [|m ms IH]; intros calls Hnone.
  - simpl. unfold ret. now rewrite app_nil_r.
  - simpl first_working. unfold bind, test_model_availability, bind,
      requests_post, ret.
    assert (E0 : responses (List.length calls)
                 = test_outcome responses calls 0)
      by (unfold test_outcome; now rewrite Nat.add_0_r).
    rewrite E0, (Hnone 0%nat) by (simpl; lia).
    rewrite IH.
    + simpl. now rewrite <- app_assoc.
    + intros j Hj. specialize (Hnone (S j) ltac:(simpl; lia)).
      unfold test_outcome in *. rewrite length_app. simpl.
      now replace (List.length calls + 1 + j)%nat
        with (List.length calls + S j)%nat by lia.
Qed.

Lemma find_working_model_loop (task_type : string) :
  find_working_model responses self task_type
  = first_working responses self (models_to_test task_type).
Proof.
  unfold find_working_model, find_working_model_in, models_to_test.
  reflexivity.
Qed.

End ClassMore.

Section AnswerShape.

Import QA.

Lemma marked_succeeded (r : dict) (i : Z) :
  succeeded r -> succeeded (<[ "chunk_index" := PInt i ]> r).
Proof.
  unfold succeeded. intros H. now rewrite lookup_insert_ne by discriminate.
Qed.

(** On a text that is not empty the answer is the sentinel or the result
    of a successful chunk marked with its index; it has no ["error"]. *)
Lemma chunking_answer_shape (responses : nat -> post_outcome)
    (self : PDFQuestionAnswering) (question : string)
    (calls : list request) (d : dict) :
  pdf_text self <> "" ->
  fst (ask_question_with_chunking responses self question calls) = Ok d ->
  succeeded d
  /\ (d = sentinel
      \/ exists k,
          (k < List.length (chunks_of self))%nat
          /\ succeeded (chunk_result responses self calls k)
          /\ d = <[ "chunk_index" := PInt (Z.of_nat k) ]>
                   (chunk_result responses self calls k)).
Proof.
  intros Hne Hrun.
  pose proof (chunking_cases responses self question calls Hne) as H.
  rewrite Hrun in H. destruct H as (_ & b' & _ & _ & _ & Hcase).
  destruct Hcase as [[-> _] | (k & Hk & Hs & _ & _ & -> & _)].
  - split; [reflexivity | now left].
  - split; [now apply marked_succeeded|]. right. now exists k.
Qed.

End AnswerShape.

(** X8. A missing context, [None] or the empty string, is replaced by the
    loaded text: [ask_question] then does what it does when it is given
    that text, and with no text loaded either it returns the "No PDF text
    available" error without calling the scorer. *)
Theorem ask_question_falls_back_to_the_text
    (responses : nat -> post_outcome) (self : QA.PDFQuestionAnswering)
    (question : string) (context : option string) (calls : list request) :
  context = None \/ context = Some "" ->
  QA.ask_question responses self question context calls
  = QA.ask_question responses self question (Some (QA.pdf_text self)) calls
  /\ (QA.pdf_text self = "" ->
      QA.ask_question responses self question context calls
      = (Ok QA.no_pdf_text, calls)).
Proof.
  intros [-> | ->]; unfold QA.ask_question; simpl;
    destruct (QA.pdf_text self); split; try reflexivity;
    intros H; discriminate H.
Qed.

Lemma ask_question_falls_back_to_the_text_witness :
  QA.ask_question (QA.scripted [QA.scored "Paris" (PFloat 0.9)])
    QA.one_chunk_document "Which capital?" None []
  = QA.ask_question (QA.scripted [QA.scored "Paris" (PFloat 0.9)])
      QA.one_chunk_document "Which capital?" (Some "hello world") [].
Proof.
  exact (proj1 (ask_question_falls_back_to_the_text
                  (QA.scripted [QA.scored "Paris" (PFloat 0.9)])
                  QA.one_chunk_document "Which capital?" None []
                  (or_introl eq_refl))).
Defined.

(** How [ask_question] reads a reply. *)
Lemma answer_classification (model : string)
    (o : post_outcome) :
  (QA.succeeded (QA.answer_of_outcome model o) <->
   exists r reply,
     o = Responded r /\ status_code r = 200
     /\ json r = JsonValue (PDict reply))
  /\ (~ QA.succeeded (QA.answer_of_outcome model o) ->
      exists message,
        QA.answer_of_outcome model o = {[ "error" := PStr message ]}).
Proof.
  unfold QA.succeeded, QA.answer_of_outcome.
  destruct o as [r | message].
  2:{ split; [split|].
      - intros H. discriminate H.
      - intros (r & reply & H & _). discriminate H.
      - intros _. eexists. reflexivity. }
  destruct (Z.eqb_spec (status_code r) 200) as [E | E].
  - destruct (json r) as [v | message] eqn:Ej.
    + destruct v;
        try (split; [split; [intros H; discriminate H
                            | intros (r' & reply & [= <-] & _ & H);
                              rewrite Ej in H; discriminate H]
                    | intros _; eexists; reflexivity]).
      split; [split|].
      * intros _. now exists r, d.
      * intros _. reflexivity.
      * intros H. exfalso. apply H. reflexivity.
    + split; [split|].
      * intros H. discriminate H.
      * intros (r' & reply & [= <-] & _ & H). rewrite Ej in H.
        discriminate H.
      * intros _. eexists. reflexivity.
  - assert (Hno : ~ exists r0 reply,
               Responded r = Responded r0 /\ status_code r0 = 200
               /\ json r0 = JsonValue (PDict reply)).
    { intros (r' & reply & [= <-] & H & _). contradiction. }
    destruct (status_code r =? 404); [|destruct (status_code r =? 503)];
      (split; [split; [intros H; discriminate H | intros H; contradiction]
              | intros _; eexists; reflexivity]).
Qed.

(** X9. The dict that [ask_question] builds from a reply has no
    ["error"] key exactly when the reply has status 200 and its JSON body
    is an object; in every other case, an exception of the call included,
    it is a dict with the single key ["error"]. *)
Theorem answer_succeeds_iff_json_object (model : string)
    (o : post_outcome) :
  (QA.succeeded (QA.answer_of_outcome model o) <->
   exists r reply,
     o = Responded r /\ status_code r = 200
     /\ json r = JsonValue (PDict reply))
  /\ (~ QA.succeeded (QA.answer_of_outcome model o) ->
      exists message,
        QA.answer_of_outcome model o = {[ "error" := PStr message ]}).
Proof. exact (answer_classification model o). Qed.

(** X10. From a reply with status 200 and a JSON object, [ask_question]
    keeps the four fields answer, score, start and end, each as the reply
    gives it or with its default ("No answer found", 0, 0, 0) when the
    reply lacks it, and drops every other field of the reply. *)
Theorem answer_keeps_four_fields (model body : string) (reply : dict) :
  let result :=
    QA.answer_of_outcome model
      (Responded (mk_response 200 body (JsonValue (PDict reply)))) in
  result !! "answer"
  = Some (default (PStr "No answer found") (reply !! "answer"))
  /\ result !! "score" = Some (default (PInt 0) (reply !! "score"))
  /\ result !! "start" = Some (default (PInt 0) (reply !! "start"))
  /\ result !! "end" = Some (default (PInt 0) (reply !! "end"))
  /\ (forall key,
        key <> "answer" -> key <> "score" -> key <> "start" ->
        key <> "end" -> result !! key = None).
Proof.
  cbn zeta.
  assert (Hget : forall k v, get reply k v = default v (reply !! k)).
  { intros k v. unfold get. now destruct (reply !! k). }
  assert (E : QA.answer_of_outcome model
                (Responded (mk_response 200 body (JsonValue (PDict reply))))
              = {[ "answer" := get reply "answer" (PStr "No answer found");
                   "score" := get reply "score" (PInt 0);
                   "start" := get reply "start" (PInt 0);
                   "end" := get reply "end" (PInt 0) ]}) by reflexivity.
  rewrite E, <- !Hget.
  repeat (split; [reflexivity|]).
  intros key H1 H2 H3 H4.
  rewrite !lookup_insert_ne by congruence.
  apply lookup_singleton_ne. congruence.
Qed.

(** X11. [test_model_availability] accepts more than [ask_question]:
    whenever a reply lets [ask_question] succeed the same reply passes the
    test, and a reply with any status other than 200 and 404 (503 while
    the model loads, 401, 500) passes the test although [ask_question]
    turns it into an error. *)
Theorem available_is_weaker_than_answering (model : string)
    (o : post_outcome) :
  (QA.succeeded (QA.answer_of_outcome model o) -> QA.available o = true)
  /\ (forall r,
        o = Responded r -> status_code r <> 200 -> status_code r <> 404 ->
        QA.available o = true
        /\ ~ QA.succeeded (QA.answer_of_outcome model o)).
Proof.
  split.
  - intros H.
    apply (proj1 (answer_classification model o)) in H.
    destruct H as (r & reply & -> & E & _). simpl. now rewrite E.
  - intros r -> H200 H404. split.
    + simpl. now destruct (Z.eqb_spec (status_code r) 404).
    + intros H.
      apply (proj1 (answer_classification model _)) in H.
      destruct H as (r' & reply & [= <-] & E & _). contradiction.
Qed.

(** X12. [find_working_model] returns the first model of the list of the
    task that passes the availability test, after testing the models
    before it and no model after it: one call per tested model, in the
    order of the list. *)
Theorem find_working_model_returns_the_first_available
    (responses : nat -> post_outcome) (self : QA.PDFQuestionAnswering)
    (task_type : string) (calls : list request) (k : nat) (model : string) :
  QA.models_to_test task_type !! k = Some model ->
  QA.available (QA.test_outcome responses calls k) = true ->
  (forall j, (j < k)%nat ->
     QA.available (QA.test_outcome responses calls j) = false) ->
  QA.find_working_model responses self task_type calls
  = (Ok model,
     calls ++ map (QA.availability_request self)
                  (take (S k) (QA.models_to_test task_type))).
Proof.
  intros Hk Hav Hbefore. rewrite find_working_model_loop.
  now apply first_working_found.
Qed.

Lemma find_working_model_returns_the_first_available_witness :
  QA.find_working_model (QA.scripted [QA.failed 404; QA.failed 503])
    QA.one_chunk_document "qa" []
  = (Ok "distilbert-base-cased-distilled-squad",
     [] ++ map (QA.availability_request QA.one_chunk_document)
               (take 2 (QA.models_to_test "qa"))).
Proof.
  apply (find_working_model_returns_the_first_available
           (QA.scripted [QA.failed 404; QA.failed 503])
           QA.one_chunk_document "qa" [] 1
           "distilbert-base-cased-distilled-squad").
  - reflexivity.
  - reflexivity.
  - intros j Hj. destruct j as [|j]; [reflexivity | lia].
Defined.

(** X13. When no model of the list of the task passes the test (every
    reply is a 404 or an exception), [find_working_model] has tested every
    model of the list and returns "deepset/roberta-base-squad2", whatever
    the task: for "generation" and "summarization" this is a model that
    is not in the list of the task. *)
Theorem find_working_model_falls_back
    (responses : nat -> post_outcome) (self : QA.PDFQuestionAnswering)
    (task_type : string) (calls : list request) :
  (forall j, (j < List.length (QA.models_to_test task_type))%nat ->
     QA.available (QA.test_outcome responses calls j) = false) ->
  QA.find_working_model responses self task_type calls
  = (Ok "deepset/roberta-base-squad2",
     calls ++ map (QA.availability_request self)
                  (QA.models_to_test task_type))
  /\ ~ In "deepset/roberta-base-squad2" (QA.models_to_test "generation")
  /\ ~ In "deepset/roberta-base-squad2" (QA.models_to_test "summarization").
Proof.
  intros Hnone. split.
  - rewrite find_working_model_loop. now apply first_working_none.
  - split; intros H; vm_compute in H; intuition discriminate.
Qed.

Lemma find_working_model_falls_back_witness :
  QA.find_working_model
    (QA.scripted [QA.failed 404; PostRaised "timed out"])
    QA.one_chunk_document "summarization" []
  = (Ok "deepset/roberta-base-squad2",
     [] ++ map (QA.availability_request QA.one_chunk_document)
               (QA.models_to_test "summarization")).
Proof.
  apply (proj1 (find_working_model_falls_back
                  (QA.scripted [QA.failed 404; PostRaised "timed out"])
                  QA.one_chunk_document "summarization" []
                  ltac:(intros j Hj; change (j < 2)%nat in Hj;
                        destruct j as [|[|j]]; [reflexivity.. | lia]))).
Defined.

(** X14. A task type that is not a key of the table is searched as "qa";
    and since the default [working_models["qa"]] is evaluated before the
    lookup, a table without the key "qa" raises [KeyError] for every task
    type, before any call. *)
Theorem find_working_model_unknown_task
    (responses : nat -> post_outcome) (self : QA.PDFQuestionAnswering)
    (task_type : string) (calls : list request) :
  (QA.working_models !! task_type = None ->
   QA.find_working_model responses self task_type calls
   = QA.find_working_model responses self "qa" calls)
  /\ (forall table : gmap string (list string),
        table !! "qa" = None ->
        QA.find_working_model_in responses table self task_type calls
        = (Raise (KeyError "qa"), calls)).
Proof.
  split.
  - intros H. rewrite !find_working_model_loop.
    unfold QA.models_to_test. now rewrite H.
  - intros table H. unfold QA.find_working_model_in. now rewrite H.
Qed.

Lemma find_working_model_unknown_task_witness :
  QA.find_working_model (QA.scripted [QA.failed 200])
    QA.one_chunk_document "translation" []
  = QA.find_working_model (QA.scripted [QA.failed 200])
      QA.one_chunk_document "qa" [].
Proof.
  apply (proj1 (find_working_model_unknown_task
                  (QA.scripted [QA.failed 200])
                  QA.one_chunk_document "translation" [])).
  reflexivity.
Defined.

(** X15. The search for a working model reads the headers of the object
    only: it ignores the current model and the loaded text, so it gives
    the same answer and makes the same calls after [change_model] or
    [extract_text_from_pdf]. *)
Theorem find_working_model_ignores_the_current_model
    (responses : nat -> post_outcome)
    (self other : QA.PDFQuestionAnswering) (task_type : string)
    (calls : list request) :
  QA.headers self = QA.headers other ->
  QA.find_working_model responses self task_type calls
  = QA.find_working_model responses other task_type calls.
Proof.
  intros H. rewrite !find_working_model_loop.
  generalize (QA.models_to_test task_type). intros models. revert calls.
  induction models as [|m ms IH]; intros calls; [reflexivity|].
  simpl. unfold bind, QA.test_model_availability, bind, requests_post, ret.
  unfold QA.availability_request. rewrite H.
  destruct (QA.available (responses (List.length calls)));
    [reflexivity | apply IH].
Qed.

Lemma find_working_model_ignores_the_current_model_witness :
  QA.find_working_model (QA.scripted [QA.failed 404; QA.failed 503])
    (QA.change_model QA.one_chunk_document "gpt2") "qa" []
  = QA.find_working_model (QA.scripted [QA.failed 404; QA.failed 503])
      QA.one_chunk_document "qa" [].
Proof.
  apply (find_working_model_ignores_the_current_model
           (QA.scripted [QA.failed 404; QA.failed 503])
           (QA.change_model QA.one_chunk_document "gpt2")
           QA.one_chunk_document "qa" []).
  reflexivity.
Defined.

(** X16. [__init__] makes the URL of the object the one of its model and
    its header the bearer token; [change_model] and
    [extract_text_from_pdf] keep this; and then every question is posted
    to the URL of the current model with that header. *)
Theorem object_stays_consistent :
  (forall token model, QA.consistent (QA.new token model))
  /\ (forall self model,
        QA.consistent self -> QA.consistent (QA.change_model self model))
  /\ (forall self pages,
        QA.consistent self ->
        QA.consistent (snd (QA.extract_text_from_pdf self pages)))
  /\ (forall self question context,
        QA.consistent self ->
        url (QA.qa_request self question context)
        = "https://api-inference.huggingface.co/models/"
          +:+ QA.model_name self
        /\ req_headers (QA.qa_request self question context)
             !! "Authorization"
           = Some ("Bearer " +:+ QA.hf_api_token self)).
Proof.
  split; [intros token model; now split|].
  split; [intros self model [_ H]; now split|].
  split.
  - intros self [pages|] H; [|exact H]. destruct H as [H1 H2]. now split.
  - intros self question context [H1 H2]. simpl. rewrite H1, H2.
    split; [reflexivity | apply lookup_singleton_eq].
Qed.

Lemma object_stays_consistent_witness :
  url (QA.qa_request
         (QA.change_model (QA.new "token" "gpt2") "google/flan-t5-base")
         "Which capital?" "hello world")
  = "https://api-inference.huggingface.co/models/google/flan-t5-base".
Proof.
  apply (proj1 (proj2 (proj2 (proj2 object_stays_consistent))
                  (QA.change_model (QA.new "token" "gpt2")
                     "google/flan-t5-base")
                  "Which capital?" "hello world"
                  (proj1 (proj2 object_stays_consistent)
                     (QA.new "token" "gpt2") "google/flan-t5-base"
                     (proj1 object_stays_consistent "token" "gpt2")))).
Defined.

(** ** Loading a document *)

Section LoadFacts.

Import PyStr QA.

Lemma all_space_append (a b : string) :
  all_space (a +:+ b) = all_space a && all_space b.
Proof.
  induction a as [|c a IH]; [reflexivity|].
  rewrite append_cons. simpl. rewrite IH. now rewrite andb_assoc.
Qed.

Lemma all_space_pages (pages : list string) :
  forall text : string,
    all_space (foldl (fun text page => text +:+ page +:+ newline) text pages)
    = all_space text && forallb all_space pages.
Proof.
  induction pages as [|p ps IH]; intros text; simpl.
  - now rewrite andb_true_r.
  - rewrite IH, !all_space_append. simpl all_space at 3.
    change (isspace (ascii_of_nat 10)) with true. simpl.
    rewrite andb_true_r. now rewrite andb_assoc.
Qed.

Lemma rstrip_idempotent (s : string) : rstrip (rstrip s) = rstrip s.
Proof.
  induction s as [|c s IH]; [reflexivity|].
  simpl. destruct (rstrip s) as [|c' r] eqn:E.
  - destruct (isspace c) eqn:Hc; [reflexivity|]. simpl. now rewrite Hc.
  - simpl rstrip at 1. fold rstrip.
    change (match rstrip (String c' r) with
            | "" => if isspace c then "" else String c ""
            | String a s0 => String c (String a s0)
            end = String c (String c' r)).
    now rewrite IH.
Qed.

Lemma lstrip_head (c : ascii) (s : string) :
  isspace c = false -> lstrip (String c s) = String c s.
Proof. intros H. simpl. now rewrite H. Qed.

Lemma strip_idempotent (s : string) : strip (strip s) = strip s.
Proof.
  unfold strip at 1.
  assert (E : lstrip (strip s) = strip s).
  { unfold strip. destruct (lstrip_cases s) as [-> | (c & r & -> & Hc)];
      [reflexivity|].
    destruct (rstrip_keeps_head c r Hc) as [r' ->].
    now apply lstrip_head. }
  rewrite E. unfold strip. apply rstrip_idempotent.
Qed.

End LoadFacts.

(** X17. [change_model] composes as an assignment: the last model wins,
    changing the model of a fresh object gives the fresh object of the new
    model, changing to the current model changes nothing on an object
    whose URL is the one of its model, and the loaded text and its chunks
    are kept. *)
Theorem change_model_composes (self : QA.PDFQuestionAnswering)
    (token model model' : string) :
  QA.change_model (QA.change_model self model) model'
  = QA.change_model self model'
  /\ QA.change_model (QA.new token model) model' = QA.new token model'
  /\ (QA.api_url self = QA.inference_url (QA.model_name self) ->
      QA.change_model self (QA.model_name self) = self)
  /\ QA.chunks_of (QA.change_model self model) = QA.chunks_of self.
Proof.
  split; [reflexivity|]. split; [reflexivity|]. split; [|reflexivity].
  intros H. destruct self. unfold QA.change_model. simpl in *.
  now rewrite H.
Qed.

Lemma change_model_composes_witness :
  QA.change_model QA.one_chunk_document
    (QA.model_name QA.one_chunk_document)
  = QA.one_chunk_document.
Proof.
  apply (proj1 (proj2 (proj2
           (change_model_composes QA.one_chunk_document "" "" "")))).
  reflexivity.
Defined.

(** X18. After a successful [extract_text_from_pdf] the stored text is
    the returned one and is stripped; it gives the same chunks as the
    unstripped text of the pages; and it is empty exactly when every page
    holds nothing but whitespace. *)
Theorem loaded_text_keeps_the_words (self : QA.PDFQuestionAnswering)
    (pages : list string) :
  let loaded := QA.extract_text_from_pdf self (Some pages) in
  fst loaded = QA.pdf_text (snd loaded)
  /\ PyStr.strip (QA.pdf_text (snd loaded)) = QA.pdf_text (snd loaded)
  /\ QA.chunks_of (snd loaded)
     = Chunker.chunk_text (QA.pages_text pages) Chunker.default_max_length
  /\ (QA.pdf_text (snd loaded) = "" <->
      Forall (fun page => PyStr.all_space page = true) pages).
Proof.
  cbn zeta.
  assert (E : QA.pdf_text (snd (QA.extract_text_from_pdf self (Some pages)))
              = PyStr.strip (QA.pages_text pages)) by reflexivity.
  split; [reflexivity|]. rewrite E.
  split; [apply strip_idempotent|]. split.
  - unfold QA.chunks_of. rewrite E. unfold Chunker.chunk_text.
    now rewrite split_strip.
  - rewrite strip_empty_iff. unfold QA.pages_text.
    rewrite all_space_pages. simpl. rewrite forallb_forall, Forall_forall.
    split; intros H page Hin; apply H; now apply list_elem_of_In.
Qed.

(** X19. After a successful load, [ask_question_with_chunking] answers
    with the "No PDF text available" error exactly when every page holds
    nothing but whitespace, and then it makes no call. *)
Theorem blank_pages_are_reported (responses : nat -> post_outcome)
    (self : QA.PDFQuestionAnswering) (pages : list string)
    (question : string) (calls : list request) :
  let loaded := snd (QA.extract_text_from_pdf self (Some pages)) in
  let run := QA.ask_question_with_chunking responses loaded question calls in
  (fst run = Ok QA.no_pdf_text <->
   Forall (fun page => PyStr.all_space page = true) pages)
  /\ (Forall (fun page => PyStr.all_space page = true) pages ->
      run = (Ok QA.no_pdf_text, calls)).
Proof.
  cbn zeta.
  set (loaded := snd (QA.extract_text_from_pdf self (Some pages))).
  assert (Hblank : QA.pdf_text loaded = "" <->
                   Forall (fun page => PyStr.all_space page = true) pages).
  { assert (E : QA.pdf_text loaded = PyStr.strip (QA.pages_text pages))
      by reflexivity.
    rewrite E, strip_empty_iff. unfold QA.pages_text.
    rewrite all_space_pages. simpl. rewrite forallb_forall, Forall_forall.
    split; intros H page Hin; apply H; now apply list_elem_of_In. }
  assert (Hempty : QA.pdf_text loaded = "" ->
            QA.ask_question_with_chunking responses loaded question calls
            = (Ok QA.no_pdf_text, calls)).
  { intros E. unfold QA.ask_question_with_chunking. now rewrite E. }
  split; [split|].
  - intros Hrun. apply Hblank.
    destruct (string_dec (QA.pdf_text loaded) "") as [E | Hne]; [exact E|].
    exfalso.
    destruct (chunking_answer_shape responses loaded question calls
                QA.no_pdf_text Hne Hrun) as [Hs _].
    discriminate Hs.
  - intros H. apply Hblank in H. now rewrite (Hempty H).
  - intros H. apply Hblank in H. now apply Hempty.
Qed.

Lemma blank_pages_are_reported_witness :
  QA.ask_question_with_chunking (QA.scripted [QA.scored "Paris" (PFloat 0.9)])
    (snd (QA.extract_text_from_pdf (QA.new "token" "gpt2")
            (Some [" "; ""; "	 "])))
    "Which capital?" []
  = (Ok QA.no_pdf_text, []).
Proof.
  apply (proj2 (blank_pages_are_reported
                  (QA.scripted [QA.scored "Paris" (PFloat 0.9)])
                  (QA.new "token" "gpt2") [" "; ""; "	 "]
                  "Which capital?" [])).
  repeat constructor.
Defined.

(** X20. On a text that is not empty the dict returned by
    [ask_question_with_chunking] never has an ["error"] key, even when
    chunks failed: it is the sentinel, or it has a ["chunk_index"] below
    the number of chunks and, that key removed, is the result of that
    chunk, a successful one. *)
Theorem chunking_never_returns_an_error (responses : nat -> post_outcome)
    (self : QA.PDFQuestionAnswering) (question : string)
    (calls : list request) (d : dict) :
  QA.pdf_text self <> "" ->
  fst (QA.ask_question_with_chunking responses self question calls) = Ok d ->
  d !! "error" = None
  /\ (d = QA.sentinel
      \/ exists k,
          (k < List.length (QA.chunks_of self))%nat
          /\ d !! "chunk_index" = Some (PInt (Z.of_nat k))
          /\ delete "chunk_index" d = QA.chunk_result responses self calls k
          /\ QA.succeeded (QA.chunk_result responses self calls k)).
Proof.
  intros Hne Hrun.
  destruct (chunking_answer_shape responses self question calls d Hne Hrun)
    as [Hs [-> | (k & Hk & Hsk & ->)]].
  - split; [exact Hs | now left].
  - split; [exact Hs|]. right. exists k. split; [exact Hk|].
    split; [apply lookup_insert_eq|]. split; [|exact Hsk].
    rewrite delete_insert_eq. apply delete_id.
    apply (well_shaped_succeeded _ (answer_of_outcome_shape _ _) Hsk).
Qed.

Lemma chunking_never_returns_an_error_witness :
  QA.sentinel !! "error" = None
  /\ (QA.sentinel = QA.sentinel
      \/ exists k,
          (k < List.length (QA.chunks_of QA.two_chunk_document))%nat
          /\ QA.sentinel !! "chunk_index" = Some (PInt (Z.of_nat k))
          /\ delete "chunk_index" QA.sentinel
             = QA.chunk_result
                 (QA.scripted [QA.failed 404; PostRaised "timed out"])
                 QA.two_chunk_document [] k
          /\ QA.succeeded
               (QA.chunk_result
                  (QA.scripted [QA.failed 404; PostRaised "timed out"])
                  QA.two_chunk_document [] k)).
Proof.
  apply (chunking_never_returns_an_error
           (QA.scripted [QA.failed 404; PostRaised "timed out"])
           QA.two_chunk_document "Which one?" [] QA.sentinel).
  - vm_compute. discriminate.
  - vm_compute. reflexivity.
Defined.

(** X21. Failed chunks do not disturb the selection: when some successful
    chunk scores above 0 and every successful chunk carries a number, the
    answer is the result of the first successful chunk that reaches the
    highest score among the successful ones, marked with its index, and
    every chunk, failed or not, was sent once. *)
Theorem errors_do_not_disturb_the_selection
    (responses : nat -> post_outcome) (self : QA.PDFQuestionAnswering)
    (question : string) (calls : list request) :
  let n := List.length (QA.chunks_of self) in
  let result := QA.chunk_result responses self calls in
  (forall k, (k < n)%nat -> QA.succeeded (result k) ->
     is_Some (QA.score_of (result k))) ->
  (exists i q, (i < n)%nat /\ QA.succeeded (result i)
               /\ QA.score_of (result i) = Some q /\ (0 < q)%Q) ->
  exists m b,
    (m < n)%nat
    /\ QA.succeeded (result m)
    /\ QA.score_of (result m) = Some b
    /\ (forall k, (k < n)%nat -> QA.succeeded (result k) ->
          exists q, QA.score_of (result k) = Some q /\ (q <= b)%Q)
    /\ (forall j qj, (j < m)%nat -> QA.succeeded (result j) ->
          QA.score_of (result j) = Some qj -> (qj < b)%Q)
    /\ QA.ask_question_with_chunking responses self question calls
       = (Ok (<[ "chunk_index" := PInt (Z.of_nat m) ]> (result m)),
          calls ++ map (QA.qa_request self question) (QA.chunks_of self)).
Proof.
  cbn zeta. intros Hnum Hpos.
  destruct (chunking_first_maximum responses self question calls Hnum Hpos)
    as (m & b & Hm & Hs & Hb & _ & Hdom & Hfirst & Hrun).
  exists m, b. repeat (split; [assumption|]). exact Hrun.
Qed.

Lemma errors_do_not_disturb_the_selection_witness :
  exists m b,
    (m < List.length (QA.chunks_of QA.three_chunk_document))%nat
    /\ QA.succeeded
         (QA.chunk_result
            (QA.scripted [QA.failed 503; QA.scored "Paris" (PFloat 0.4);
                          PostRaised "timed out"])
            QA.three_chunk_document [] m)
    /\ QA.score_of
         (QA.chunk_result
            (QA.scripted [QA.failed 503; QA.scored "Paris" (PFloat 0.4);
                          PostRaised "timed out"])
            QA.three_chunk_document [] m) = Some b
    /\ (forall k,
          (k < List.length (QA.chunks_of QA.three_chunk_document))%nat ->
          QA.succeeded
            (QA.chunk_result
               (QA.scripted [QA.failed 503; QA.scored "Paris" (PFloat 0.4);
                             PostRaised "timed out"])
               QA.three_chunk_document [] k) ->
          exists q,
            QA.score_of
              (QA.chunk_result
                 (QA.scripted [QA.failed 503; QA.scored "Paris" (PFloat 0.4);
                               PostRaised "timed out"])
                 QA.three_chunk_document [] k) = Some q
            /\ (q <= b)%Q)
    /\ (forall j qj, (j < m)%nat ->
          QA.succeeded
            (QA.chunk_result
               (QA.scripted [QA.failed 503; QA.scored "Paris" (PFloat 0.4);
                             PostRaised "timed out"])
               QA.three_chunk_document [] j) ->
          QA.score_of
            (QA.chunk_result
               (QA.scripted [QA.failed 503; QA.scored "Paris" (PFloat 0.4);
                             PostRaised "timed out"])
               QA.three_chunk_document [] j) = Some qj ->
          (qj < b)%Q)
    /\ QA.ask_question_with_chunking
         (QA.scripted [QA.failed 503; QA.scored "Paris" (PFloat 0.4);
                       PostRaised "timed out"])
         QA.three_chunk_document "Which capital?" []
       = (Ok (<[ "chunk_index" := PInt (Z.of_nat m) ]>
                (QA.chunk_result
                   (QA.scripted [QA.failed 503;
                                 QA.scored "Paris" (PFloat 0.4);
                                 PostRaised "timed out"])
                   QA.three_chunk_document [] m)),
          [] ++ map (QA.qa_request QA.three_chunk_document "Which capital?")
                    (QA.chunks_of QA.three_chunk_document)).
Proof.
  apply (errors_do_not_disturb_the_selection
           (QA.scripted [QA.failed 503; QA.scored "Paris" (PFloat 0.4);
                         PostRaised "timed out"])
           QA.three_chunk_document "Which capital?" []).
  - intros k Hk. change (k < 3)%nat in Hk.
    destruct k as [|[|[|k]]]; [| | | lia]; intros H;
      try (vm_compute in H; discriminate H).
    exists 0.4%Q. reflexivity.
  - exists 1%nat, 0.4%Q. split; [vm_compute; lia|].
    split; [reflexivity|]. split; reflexivity.
Defined.

(** X22. A successful chunk whose score is not a number is not skipped
    like a failed call: when the chunk of index [k] is the first such
    chunk, [ask_question_with_chunking] raises [TypeError] after the
    [k + 1] first calls, the later chunks are never sent and the answers
    found so far are lost. *)
Theorem non_numeric_score_aborts (responses : nat -> post_outcome)
    (self : QA.PDFQuestionAnswering) (question : string)
    (calls : list request) (k : nat) :
  let result := QA.chunk_result responses self calls in
  (k < List.length (QA.chunks_of self))%nat ->
  QA.succeeded (result k) ->
  QA.score_of (result k) = None ->
  (forall j, (j < k)%nat -> QA.succeeded (result j) ->
     is_Some (QA.score_of (result j))) ->
  QA.ask_question_with_chunking responses self question calls
  = (Raise TypeError,
     calls ++ map (QA.qa_request self question)
                  (take (S k) (QA.chunks_of self))).
Proof.
  cbn zeta. intros Hk Hs Hq Hbefore.
  assert (Hne : QA.pdf_text self <> "")
    by (apply chunks_nonempty_text; lia).
  unfold QA.ask_question_with_chunking.
  rewrite truthy_nonempty by exact Hne. simpl negb. cbv iota.
  apply (search_raises responses self question _
           (chunk_text_nonempty_chunks _ _) 0%nat QA.sentinel 0%Q calls k
           best_score_sentinel Hk Hs Hq Hbefore).
Qed.

Lemma non_numeric_score_aborts_witness :
  QA.ask_question_with_chunking
    (QA.scripted [QA.scored "Paris" (PFloat 0.9);
                  QA.scored "Rome" (PStr "high");
                  QA.scored "Oslo" (PFloat 0.95)])
    QA.three_chunk_document "Which capital?" []
  = (Raise TypeError,
     [] ++ map (QA.qa_request QA.three_chunk_document "Which capital?")
               (take 2 (QA.chunks_of QA.three_chunk_document))).
Proof.
  apply (non_numeric_score_aborts
           (QA.scripted [QA.scored "Paris" (PFloat 0.9);
                         QA.scored "Rome" (PStr "high");
                         QA.scored "Oslo" (PFloat 0.95)])
           QA.three_chunk_document "Which capital?" [] 1).
  - vm_compute. lia.
  - reflexivity.
  - reflexivity.
  - intros j Hj _. destruct j as [|j]; [|lia]. exists 0.9%Q. reflexivity.
Defined.

(** X23. [ask_question_with_chunking] never calls the scorer more than
    once per chunk: whatever the replies, and also when it raises, the
    calls it adds to the log are the requests for the first chunks, in the
    order of the chunks, each with the question and that chunk as
    context. *)
Theorem calls_follow_the_chunks (responses : nat -> post_outcome)
    (self : QA.PDFQuestionAnswering) (question : string)
    (calls : list request) :
  exists m,
    (m <= List.length (QA.chunks_of self))%nat
    /\ snd (QA.ask_question_with_chunking responses self question calls)
       = calls ++ map (fun chunk =>
                         mk_request (QA.api_url self) (QA.headers self)
                           (PDict {[ "inputs" :=
                              PDict {[ "question" := PStr question;
                                       "context" := PStr chunk ]} ]})
                           None)
                      (take m (QA.chunks_of self)).
Proof.
  unfold QA.ask_question_with_chunking.
  destruct (PyStr.truthy (QA.pdf_text self)) eqn:E; simpl negb; cbv iota.
  - apply (search_calls_prefix responses self question _
             (chunk_text_nonempty_chunks _ _)).
  - exists 0%nat. split; [lia|]. simpl. now rewrite app_nil_r.
Qed.

(** ** More on the handler *)

(** X24. [process] replies with HTTP status 200 to every failure that the
    scorer reports by a status: for a reply of the scorer with a status
    other than 200 the body has an ["error"] key, no ["status"] key, and
    the HTTP status is 200. The status 500 is kept for a call that
    raised and for a reply with status 200 whose body is not a JSON
    object. *)
Theorem upstream_failures_are_relayed_as_200 (model : string)
    (o : post_outcome) :
  (forall r,
      o = Responded r -> status_code r <> 200 ->
      App.status (App.reply_of_outcome model o) = 200
      /\ is_Some (App.body (App.reply_of_outcome model o) !! "error")
      /\ App.body (App.reply_of_outcome model o) !! "status" = None)
  /\ (App.status (App.reply_of_outcome model o) = 200
      \/ App.status (App.reply_of_outcome model o) = 500)
  /\ (App.status (App.reply_of_outcome model o) = 500 <->
      (exists message, o = PostRaised message)
      \/ (exists r, o = Responded r /\ status_code r = 200
                    /\ forall reply, json r <> JsonValue (PDict reply))).
Proof.
  unfold App.reply_of_outcome. destruct o as [r | message].
  2:{ split; [intros r H; discriminate H|]. split; [now right|].
      split; [intros _; left; eauto | reflexivity]. }
  destruct (Z.eqb_spec (status_code r) 200) as [E | E].
  - split; [intros r' [= <-] H; contradiction|].
    destruct (json r) as [v | message] eqn:Ej.
    + destruct v;
        try (split; [now right|]; split; [|reflexivity];
             intros _; right; exists r; split; [reflexivity|];
             split; [exact E|]; intros reply H; rewrite Ej in H;
             discriminate H).
      split; [now left|]. split; [intros H; discriminate H|].
      intros [(message & H) | (r' & [= <-] & _ & H)]; [discriminate H|].
      exfalso. apply (H d). exact Ej.
    + split; [now right|]. split; [|reflexivity].
      intros _. right. exists r. split; [reflexivity|]. split; [exact E|].
      intros reply H. rewrite Ej in H. discriminate H.
  - assert (Hnot500 :
      ~ ((exists message, Responded r = PostRaised message)
         \/ (exists r0, Responded r = Responded r0 /\ status_code r0 = 200
                        /\ forall reply, json r0 <> JsonValue (PDict reply)))).
    { intros [(message & H) | (r' & [= <-] & H & _)];
        [discriminate H | contradiction]. }
    destruct (status_code r =? 404); [|destruct (status_code r =? 503)];
      (split; [intros r' _ _; split; [reflexivity|];
               split; [eexists; apply lookup_singleton_eq
                      | apply lookup_singleton_ne; discriminate]|];
       split; [now left|];
       split; [intros H; discriminate H | intros H; contradiction]).
Qed.

Lemma upstream_failures_are_relayed_as_200_witness :
  App.status (App.reply_of_outcome "gpt2" (QA.failed 503)) = 200
  /\ is_Some (App.body (App.reply_of_outcome "gpt2" (QA.failed 503))
                !! "error")
  /\ App.body (App.reply_of_outcome "gpt2" (QA.failed 503)) !! "status"
     = None.
Proof.
  apply (proj1 (upstream_failures_are_relayed_as_200 "gpt2" (QA.failed 503))
           (mk_response 503 "unavailable" (JsonError "no JSON"))).
  - reflexivity.
  - vm_compute. discriminate.
Defined.

(** X25. The handler and [ask_question] read a reply of the scorer in
    the same way: for a status other than 200 the body of the handler is
    the dict of [ask_question], and for a status 200 with a JSON object
    it is that dict with ["status"] set to "success". *)
Theorem process_reads_replies_as_ask_question (model : string)
    (r : response) :
  (status_code r <> 200 ->
   App.body (App.reply_of_outcome model (Responded r))
   = QA.answer_of_outcome model (Responded r))
  /\ (forall reply,
        status_code r = 200 -> json r = JsonValue (PDict reply) ->
        App.body (App.reply_of_outcome model (Responded r))
        = <[ "status" := PStr "success" ]>
            (QA.answer_of_outcome model (Responded r))
        /\ App.status (App.reply_of_outcome model (Responded r)) = 200).
Proof.
  unfold App.reply_of_outcome, QA.answer_of_outcome. split.
  - intros H. destruct (Z.eqb_spec (status_code r) 200); [contradiction|].
    destruct (status_code r =? 404); [reflexivity|].
    destruct (status_code r =? 503); reflexivity.
  - intros reply H Hj. rewrite Hj.
    destruct (Z.eqb_spec (status_code r) 200); [|contradiction].
    split; reflexivity.
Qed.

Lemma process_reads_replies_as_ask_question_witness :
  App.body (App.reply_of_outcome "gpt2" (QA.failed 404))
  = QA.answer_of_outcome "gpt2" (QA.failed 404).
Proof.
  apply (proj1 (process_reads_replies_as_ask_question "gpt2"
                  (mk_response 404 "unavailable" (JsonError "no JSON")))).
  vm_compute. discriminate.
Defined.

(** X26. A request with a model and a prompt makes exactly one call, with
    a timeout of 60, to the URL of the model, with the header
    "Bearer <token>" where an absent token is printed as "None", and
    replies with what the scorer's reply gives; the content of the
    uploaded file is the context of the payload. The only exception: an
    uploaded file that is not UTF-8 raises [UnicodeDecodeError] before any
    call. *)
Theorem process_calls_the_scorer_once (responses : nat -> post_outcome)
    (request : App.flask_request) (calls : list Http.request)
    (model prompt : string) :
  App.form request !! "hf_model" = Some model -> model <> "" ->
  App.form request !! "prompt" = Some prompt -> prompt <> "" ->
  let call context :=
    mk_request
      ("https://api-inference.huggingface.co/models/" +:+ model)
      {[ "Authorization" :=
           "Bearer " +:+ match App.form request !! "hf_token" with
                         | Some token => token
                         | None => "None"
                         end ]}
      (App.payload prompt context) (Some 60) in
  let reply := App.reply_of_outcome model (responses (List.length calls)) in
  (App.file_truthy (App.files request !! "file") = false ->
   App.process responses request calls = (Ok reply, calls ++ [call ""]))
  /\ (forall file content,
        App.files request !! "file" = Some file ->
        App.filename file <> "" -> App.decoded file = Some content ->
        App.process responses request calls
        = (Ok reply, calls ++ [call content]))
  /\ (forall file,
        App.files request !! "file" = Some file ->
        App.filename file <> "" -> App.decoded file = None ->
        App.process responses request calls
        = (Raise UnicodeDecodeError, calls)).
Proof.
  intros Hm Hmne Hp Hpne. cbn zeta. unfold App.process.
  rewrite Hm, Hp.
  assert (Htm : Py.truthy_optional (Some model) = true)
    by (destruct model; [congruence | reflexivity]).
  assert (Htp : Py.truthy_optional (Some prompt) = true)
    by (destruct prompt; [congruence | reflexivity]).
  rewrite Htm, Htp. simpl orb. cbv iota.
  assert (Hft : forall file,
            App.filename file <> "" ->
            App.file_truthy (Some file) = true).
  { intros file H. unfold App.file_truthy.
    destruct (App.filename file); [congruence | reflexivity]. }
  split; [|split].
  - intros Hf. rewrite Hf. reflexivity.
  - intros file content Hfile Hname Hdec.
    rewrite Hfile, (Hft file Hname).
    change (Some file ≫= App.decoded) with (App.decoded file).
    rewrite Hdec. reflexivity.
  - intros file Hfile Hname Hdec.
    rewrite Hfile, (Hft file Hname).
    change (Some file ≫= App.decoded) with (App.decoded file).
    rewrite Hdec. reflexivity.
Qed.

Lemma process_calls_the_scorer_once_witness :
  App.process (QA.scripted [QA.scored "Paris" (PFloat 0.9)])
    App.valid_request []
  = (Ok (App.reply_of_outcome "bert-base-uncased"
           (QA.scored "Paris" (PFloat 0.9))),
     [] ++ [mk_request
              ("https://api-inference.huggingface.co/models/"
               +:+ "bert-base-uncased")
              {[ "Authorization" := "Bearer " +:+ "dummy" ]}
              (App.payload "What is AI?" "") (Some 60)]).
Proof.
  apply (proj1 (process_calls_the_scorer_once
                  (QA.scripted [QA.scored "Paris" (PFloat 0.9)])
                  App.valid_request [] "bert-base-uncased" "What is AI?"
                  eq_refl ltac:(discriminate) eq_refl ltac:(discriminate))).
  reflexivity.
Defined.

(** X27. The context enters the payload only when it is not empty. For
    a request with a model and a prompt: without a file, or with an
    uploaded file that is empty or has no name, the JSON sent to the
    scorer is [{"inputs": {"question": prompt}}], with no ["context"]
    key; with a named file of content [c] that is not empty it is
    [{"inputs": {"question": prompt, "context": c}}]. And an uploaded
    file that is empty, or that has no name, gives the same call and the
    same reply as no file at all, whatever the request. *)
Theorem empty_file_is_no_file (responses : nat -> post_outcome)
    (request : App.flask_request) (calls : list Http.request) :
  (forall file,
      App.files request !! "file" = Some file ->
      App.filename file = "" \/ App.decoded file = Some "" ->
      App.process responses request calls
      = App.process responses
          (App.mk_flask_request ∅ (App.form request)) calls)
  /\ (forall model prompt,
        App.form request !! "hf_model" = Some model -> model <> "" ->
        App.form request !! "prompt" = Some prompt -> prompt <> "" ->
        (App.files request !! "file" = None
         \/ (exists file,
               App.files request !! "file" = Some file
               /\ (App.filename file = "" \/ App.decoded file = Some ""))
         ->
         map req_json (snd (App.process responses request calls))
         = map req_json calls
           ++ [PDict {[ "inputs" :=
                          PDict {[ "question" := PStr prompt ]} ]}])
        /\ (forall file content,
              App.files request !! "file" = Some file ->
              App.filename file <> "" ->
              App.decoded file = Some content -> content <> "" ->
              map req_json (snd (App.process responses request calls))
              = map req_json calls
                ++ [PDict {[ "inputs" :=
                               PDict {[ "question" := PStr prompt;
                                        "context" := PStr content ]} ]}])).
Proof.
  assert (Same : forall file,
      App.files request !! "file" = Some file ->
      App.filename file = "" \/ App.decoded file = Some "" ->
      App.process responses request calls
      = App.process responses
          (App.mk_flask_request ∅ (App.form request)) calls).
  { intros file Hfile H. unfold App.process.
    cbn [App.files App.form]. rewrite Hfile, lookup_empty.
    change (App.file_truthy None) with false. cbv iota.
    destruct (negb (truthy_optional (App.form request !! "hf_model"))
              || negb (truthy_optional (App.form request !! "prompt")));
      [reflexivity|].
    change (Some file ≫= App.decoded) with (App.decoded file).
    unfold App.file_truthy.
    destruct H as [H | H]; rewrite H; [reflexivity|].
    now destruct (PyStr.truthy (App.filename file)). }
  split; [exact Same|].
  intros model prompt Hm Hmne Hp Hpne.
  assert (Htm : Py.truthy_optional (Some model) = true)
    by (destruct model; [congruence | reflexivity]).
  assert (Htp : Py.truthy_optional (Some prompt) = true)
    by (destruct prompt; [congruence | reflexivity]).
  assert (Hnofile :
    map req_json
        (snd (App.process responses
                (App.mk_flask_request ∅ (App.form request)) calls))
    = map req_json calls
      ++ [PDict {[ "inputs" := PDict {[ "question" := PStr prompt ]} ]}]).
  { unfold App.process. cbn [App.files App.form].
    rewrite Hm, Hp, Htm, Htp, lookup_empty.
    change (App.file_truthy None) with false. simpl orb. cbv iota.
    unfold bind, lift, requests_post, ret. simpl snd.
    rewrite map_app. reflexivity. }
  split.
  - intros [Hnone | (file & Hfile & H)].
    + unfold App.process. rewrite Hm, Hp, Htm, Htp, Hnone.
      change (App.file_truthy None) with false. simpl orb. cbv iota.
      unfold bind, lift, requests_post, ret. simpl snd.
      rewrite map_app. reflexivity.
    + rewrite (Same file Hfile H). exact Hnofile.
  - intros file content Hfile Hname Hdec Hcontent.
    unfold App.process. rewrite Hm, Hp, Htm, Htp, Hfile.
    assert (Hft : App.file_truthy (Some file) = true).
    { unfold App.file_truthy.
      destruct (App.filename file); [congruence | reflexivity]. }
    rewrite Hft.
    change (Some file ≫= App.decoded) with (App.decoded file).
    rewrite Hdec. simpl orb. cbv iota.
    unfold bind, lift, requests_post, ret. simpl snd.
    rewrite map_app. simpl map. unfold App.payload.
    rewrite truthy_nonempty by exact Hcontent. reflexivity.
Qed.

Lemma empty_file_is_no_file_witness :
  map req_json
      (snd (App.process (QA.scripted [QA.scored "Paris" (PFloat 0.9)])
              (App.mk_flask_request
                 {[ "file" := App.mk_file "notes.txt" (Some "Paris is") ]}
                 (App.form App.valid_request)) []))
  = map req_json []
    ++ [PDict {[ "inputs" :=
                   PDict {[ "question" := PStr "What is AI?";
                            "context" := PStr "Paris is" ]} ]}].
Proof.
  apply (proj2 (proj2 (empty_file_is_no_file
                         (QA.scripted [QA.scored "Paris" (PFloat 0.9)])
                         (App.mk_flask_request
                            {[ "file" := App.mk_file "notes.txt"
                                           (Some "Paris is") ]}
                            (App.form App.valid_request)) [])
                  "bert-base-uncased" "What is AI?"
                  eq_refl ltac:(discriminate) eq_refl ltac:(discriminate))
           (App.mk_file "notes.txt" (Some "Paris is")) "Paris is"
           eq_refl ltac:(discriminate) eq_refl ltac:(discriminate)).
Defined.
